(** * Scrape / paginate / download orchestration of the generated extension

    Shallow embedding of the two scripts that [src/_Research/custom/run.py]
    writes out: [background_js_content] (the coordinator and its download
    gate) and [content_script_js_content] (the page agent), and of the
    script of the popup that starts them, [popup_js_content].

    Conventions of the embedding.
    - JavaScript strings are [string]; a character is an [ascii].
    - An array index that may be [undefined] is an [option].
    - [scraperState.downloadedFiles] is a JS object used as a map from
      file names to [true]: a [gmap string bool], read through
      [truthy_entry], which also sees the properties every object literal
      inherits from [Object.prototype].
    - An element's [classList] is the [gset string] of its tokens.
    - Each message handler runs to completion before the next message is
      looked at; what it does to the outside world is the list of [effect]s
      it returns, in program order. *)

From Stdlib Require Import ZArith Ascii String List Lia.
From stdpp Require Import base option list gmap strings pretty.

Local Open Scope Z_scope.

(** ** JavaScript string primitives used by the scripts *)

Module JS.

(** [s.lastIndexOf(c)] for a one-character needle: the last position of
    [c] in [s], or [-1]. [i] is the position of the head of [s]. *)
Fixpoint lastIndexOf_from (i : Z) (s : string) (c : ascii) : Z :=
  match s with
  | EmptyString => -1
  | String x r =>
      let k := lastIndexOf_from (i + 1) r c in
      if 0 <=? k then k else if decide (x = c) then i else -1
  end.

Definition lastIndexOf (s : string) (c : ascii) : Z := lastIndexOf_from 0 s c.

Fixpoint drop (n : nat) (s : string) : string :=
  match n, s with
  | O, _ => s
  | S _, EmptyString => EmptyString
  | S n', String _ r => drop n' r
  end.

(** [s.substring(start)]: a negative start counts as 0, one past the end
    gives the empty string. *)
Definition substring (s : string) (start : Z) : string :=
  drop (Z.to_nat (Z.max 0 start)) s.

(** [s.split(c)] for a one-character separator. The result is never
    empty: splitting the empty string gives one empty piece. *)
Fixpoint split (s : string) (c : ascii) : list string :=
  match s with
  | EmptyString => [EmptyString]
  | String x r =>
      if decide (x = c) then EmptyString :: split r c
      else match split r c with
           | p :: ps => String x p :: ps
           | [] => [String x EmptyString]
           end
  end.

(** A value interpolated in a template literal: [undefined] prints as
    the nine letters. *)
Definition interpolate (v : option string) : string :=
  match v with
  | Some s => s
  | None => "undefined"%string
  end.

(** The names every object literal inherits from [Object.prototype];
    reading any of them yields a function or an object, so a truthy
    value. *)
Definition object_prototype_keys : list string :=
  [ "constructor"; "__defineGetter__"; "__defineSetter__"; "hasOwnProperty";
    "__lookupGetter__"; "__lookupSetter__"; "isPrototypeOf";
    "propertyIsEnumerable"; "toString"; "valueOf"; "__proto__";
    "toLocaleString" ]%string.

Definition inherited (k : string) : bool :=
  bool_decide (k ∈ object_prototype_keys).

End JS.

(** ** Coordinator: [background_js_content] *)

(** The shape shared by [scraperState.results] and by the [data] of a
    [scrapedData] message. *)
Record urlLists := UrlLists {
  thumbnails : list string;
  destinations : list string
}.

Record scraperState := ScraperState {
  running : bool;
  results : urlLists;
  downloadedFiles : gmap string bool;
  currentPage : Z;
  lastScrapedHeight : Z
}.

(** The object literal the script starts from. *)
Definition initial_state : scraperState :=
  {| running := false;
     results := {| thumbnails := []; destinations := [] |};
     downloadedFiles := ∅;
     currentPage := 1;
     lastScrapedHeight := 0 |}.

(** Directives the coordinator sends to the content script of the active
    tab ([chrome.tabs.query] followed by [chrome.tabs.sendMessage]). *)
Inductive directive := ScrapePage | Paginate.

(** Messages the coordinator's listener distinguishes by [message.action];
    any other action falls through all three branches. *)
Inductive message :=
  | StartScrape
  | ScrapedData (data : urlLists)
  | ScrapeComplete
  | OtherAction (action : string).

(** What [downloadFile] returns: [{success: true, url}] or
    [{success: false, url, error}]. *)
Inductive downloadResult :=
  | Success (url : string)
  | Failure (url : string) (error : string).

(** Observable actions of the coordinator, in program order. *)
Inductive effect :=
  | LogReceived (data : urlLists)
  | DownloadsDownload (url : string) (filename : string)
  | ErrorFailedDownload (url : string) (error : string)
  | TabsSendMessage (d : directive)
  | LogComplete (final : urlLists)
  | SendResponse (ok : bool) (status : string).

(** [scraperState.downloadedFiles[k]] read as a condition. *)
Definition truthy_entry (files : gmap string bool) (k : string) : bool :=
  match files !! k with
  | Some b => b
  | None => JS.inherited k
  end.

(** [url.substring(url.lastIndexOf('/') + 1).split('?')[0]]. The array is
    never empty ([split_nonempty]), so the index is always defined. *)
Definition candidate (url : string) : string :=
  JS.interpolate
    (JS.split (JS.substring url (JS.lastIndexOf url "/"%char + 1)) "?"%char !! 0%nat).

(** The template literal of the suffix loop:
    [originalFilename.split('.')[0]], an underscore, the counter, a dot,
    [originalFilename.split('.')[1]]. The counter prints in decimal, as a
    JS number does below 10^21. *)
Definition suffixed (originalFilename : string) (counter : nat) : string :=
  let parts := JS.split originalFilename "."%char in
  JS.interpolate (parts !! 0%nat) +:+ "_" +:+ pretty counter +:+ "."
    +:+ JS.interpolate (parts !! 1%nat).

(** The [while] loop of [downloadFile]. [None] means the fuel ran out
    before a free name was met. *)
Fixpoint suffix_loop (fuel : nat) (files : gmap string bool)
    (originalFilename : string) (counter : nat) (filename : string)
    : option string :=
  if truthy_entry files filename then
    match fuel with
    | O => None
    | S fuel' =>
        let counter := S counter in
        let filename := suffixed originalFilename counter in
        suffix_loop fuel' files originalFilename counter filename
    end
  else Some filename.

(** Iterations that always suffice: one more than the number of recorded
    names (see [suffix_loop_bounded]). *)
Definition claim_fuel (files : gmap string bool) : nat := S (size files).

(** The claim half of [downloadFile], up to and including
    [scraperState.downloadedFiles[filename] = true]: the name under which
    the download will be stored, and the files recorded afterwards. *)
Definition claim (url : string) (files : gmap string bool)
    : option (string * gmap string bool) :=
  let filename := candidate url in
  let originalFilename := filename in
  filename ← suffix_loop (claim_fuel files) files originalFilename 0 filename;
  Some (filename, <[filename := true]> files).

Section Coordinator.

(** The external download capability [chrome.downloads.download]:
    [None] when the promise resolves, [Some msg] when it rejects with an
    error whose [message] is [msg]. *)
Variable chrome_downloads_download : string -> string -> option string.

Definition set_downloadedFiles (files : gmap string bool) (st : scraperState)
    : scraperState :=
  {| running := running st;
     results := results st;
     downloadedFiles := files;
     currentPage := currentPage st;
     lastScrapedHeight := lastScrapedHeight st |}.

Definition downloadFile (url : string) (st : scraperState)
    : option (downloadResult * scraperState * list effect) :=
  '(filename, files) ← claim url (downloadedFiles st);
  let st := set_downloadedFiles files st in
  let path := ("scraped_images/" +:+ filename)%string in
  let out := [DownloadsDownload url path] in
  match chrome_downloads_download url path with
  | None => Some (Success url, st, out)
  | Some msg => Some (Failure url msg, st, out)
  end.

(** The [for ... of] loop over [message.data.thumbnails]. *)
Fixpoint download_all (urls : list string) (st : scraperState)
    : option (scraperState * list effect) :=
  match urls with
  | [] => Some (st, [])
  | url :: rest =>
      '(result, st, out1) ← downloadFile url st;
      let out2 := match result with
                  | Success _ => []
                  | Failure u e => [ErrorFailedDownload u e]
                  end in
      '(st, out3) ← download_all rest st;
      Some (st, out1 ++ out2 ++ out3)
  end.

Definition set_running (b : bool) (st : scraperState) : scraperState :=
  {| running := b;
     results := results st;
     downloadedFiles := downloadedFiles st;
     currentPage := currentPage st;
     lastScrapedHeight := lastScrapedHeight st |}.

(** The two [push(...)] calls on [scraperState.results]. *)
Definition push_results (data : urlLists) (st : scraperState) : scraperState :=
  {| running := running st;
     results := {| thumbnails := thumbnails (results st) ++ thumbnails data;
                   destinations := destinations (results st) ++ destinations data |};
     downloadedFiles := downloadedFiles st;
     currentPage := currentPage st;
     lastScrapedHeight := lastScrapedHeight st |}.

(** The listener registered with [chrome.runtime.onMessage]. *)
Definition onMessage (m : message) (st : scraperState)
    : option (scraperState * list effect) :=
  match m with
  | StartScrape =>
      if negb (running st)
      then Some (set_running true st, [TabsSendMessage ScrapePage])
      else Some (st, [])
  | ScrapedData data =>
      let st := push_results data st in
      '(st, out) ← download_all (thumbnails data) st;
      Some (st, [LogReceived data] ++ out ++
                [TabsSendMessage Paginate;
                 SendResponse true "Scraped data received and downloads started."])
  | ScrapeComplete =>
      let st := set_running false st in
      Some (st, [LogComplete (results st);
                 SendResponse true "Scraping process finished."])
  | OtherAction _ => Some (st, [])
  end.

(** A sequence of messages handled one after the other. *)
Fixpoint run (ms : list message) (st : scraperState)
    : option (scraperState * list effect) :=
  match ms with
  | [] => Some (st, [])
  | m :: rest =>
      '(st, out1) ← onMessage m st;
      '(st, out2) ← run rest st;
      Some (st, out1 ++ out2)
  end.

End Coordinator.

(** ** Page agent: [content_script_js_content] *)

(** An element of the document: its local name, its classes, its
    attributes (URL-valued ones already resolved) and its element
    children, in document order. *)
#[local] Unset Elimination Schemes.
Inductive element :=
  | Element (localName : string) (classList : list string)
            (attributes : list (string * string)) (children : list element).
#[local] Set Elimination Schemes.

(** Induction over a document: the property may be assumed of every
    child. *)
Fixpoint element_nested_ind (P : element → Prop)
    (step : ∀ n c a kids, Forall P kids → P (Element n c a kids))
    (e : element) : P e :=
  match e with
  | Element n c a kids =>
      step n c a kids
        ((fix all (l : list element) : Forall P l :=
            match l with
            | [] => @List.Forall_nil _ P
            | k :: rest => @List.Forall_cons _ P k rest (element_nested_ind P step k) (all rest)
            end) kids)
  end.

Definition localName (e : element) : string :=
  match e with Element n _ _ _ => n end.
Definition classList (e : element) : list string :=
  match e with Element _ c _ _ => c end.
Definition attributes (e : element) : list (string * string) :=
  match e with Element _ _ a _ => a end.
Definition children (e : element) : list element :=
  match e with Element _ _ _ k => k end.

Fixpoint getAttribute (attrs : list (string * string)) (name : string) : option string :=
  match attrs with
  | [] => None
  | (k, v) :: rest => if decide (k = name) then Some v else getAttribute rest name
  end.

(** [img.src] and [a.href]: the reflected attribute, the empty string when
    it is absent. *)
Definition src (e : element) : string := default ""%string (getAttribute (attributes e) "src").
Definition href (e : element) : string := default ""%string (getAttribute (attributes e) "href").

Definition has_class (c : string) (e : element) : bool := bool_decide (c ∈ classList e).
Definition is_tag (n : string) (e : element) : bool := bool_decide (localName e = n).

(** Where an element sits: the child indices leading to it from the root,
    whether it is the last element child of its parent, and whether one of
    its ancestors carries the class [pagination]. *)
Record position := Position {
  path : list nat;
  last_child : bool;
  under_pagination : bool
}.

(** The four selectors of the list given to [document.querySelector] in
    [paginate], in the order they are written. *)
Definition sel_a_next (e : element) : bool := is_tag "a" e && has_class "next" e.
Definition sel_a_rel_next (e : element) : bool :=
  is_tag "a" e && bool_decide (getAttribute (attributes e) "rel" = Some "next"%string).
Definition sel_button_next_page (e : element) : bool :=
  is_tag "button" e && has_class "next-page" e.
Definition sel_pagination_last_a (p : position) (e : element) : bool :=
  under_pagination p && is_tag "a" e && last_child p.

Definition matches_next (p : position) (e : element) : bool :=
  sel_a_next e || sel_a_rel_next e || sel_button_next_page e || sel_pagination_last_a p e.

Definition child_position (p : position) (parent : element) (i : nat) (is_last : bool)
    : position :=
  {| path := path p ++ [i];
     last_child := is_last;
     under_pagination := under_pagination p || has_class "pagination" parent |}.

Definition root_position : position :=
  {| path := []; last_child := true; under_pagination := false |}.

(** [querySelector] with the selector list of [paginate]: a depth-first
    walk that stops at the first element matching the list. *)
Fixpoint querySelector_next (p : position) (e : element) : option (position * element) :=
  if matches_next p e then Some (p, e)
  else
    (fix scan (i : nat) (kids : list element) : option (position * element) :=
       match kids with
       | [] => None
       | k :: rest =>
           match querySelector_next (child_position p e i (bool_decide (rest = []))) k with
           | Some hit => Some hit
           | None => scan (S i) rest
           end
       end) 0%nat (children e).

(** [document.querySelectorAll('img')], each image with the result of
    [img.closest('a')]. *)
Fixpoint images (enclosing : option element) (e : element)
    : list (element * option element) :=
  (if is_tag "img" e then [(e, enclosing)] else []) ++
  flat_map (images (if is_tag "a" e then Some e else enclosing)) (children e).

(** The body of the [forEach] callback of [extractData]: two pushes. *)
Definition extract_one (acc : urlLists) (item : element * option element) : urlLists :=
  let '(img, destinationElement) := item in
  let thumbnailUrl := src img in
  let destinationUrl := match destinationElement with
                        | Some a => href a
                        | None => ""%string
                        end in
  {| thumbnails := thumbnails acc ++ [thumbnailUrl];
     destinations := destinations acc ++ [destinationUrl] |}.

Definition extractData (doc : element) : urlLists :=
  fold_left extract_one (images None doc) {| thumbnails := []; destinations := [] |}.

(** The page as the agent sees it: how many polls of [readyState] still
    find it loading, the document as it stands when it is read, and the
    scroll height after each number of scroll-and-wait cycles. *)
Record page := Page {
  readyPolls : nat;
  document : element;
  heights : nat -> Z;
  scrolled : nat
}.

Definition scrollHeight (p : page) : Z := heights p (scrolled p).

(** Observable actions of the page agent, in program order. *)
Inductive agentEffect :=
  | Wait (ms : Z)
  | ScrollTo (x y : Z)
  | AgentLog (text : string)
  | AgentLogData (data : urlLists)
  | Click (target : list nat)
  | RuntimeSendMessage (m : message).

Fixpoint poll_ready (polls : nat) : list agentEffect :=
  match polls with
  | O => []
  | S n => Wait 500 :: poll_ready n
  end.

Definition waitForPageLoad (p : page) : page * list agentEffect :=
  ({| readyPolls := 0; document := document p; heights := heights p; scrolled := scrolled p |},
   poll_ready (readyPolls p) ++ [Wait 2000]).

Definition scrollAndCheck (delay : Z) (p : page) : bool * page * list agentEffect :=
  let previousHeight := scrollHeight p in
  let out := [ScrollTo 0 (scrollHeight p); Wait delay] in
  let p := {| readyPolls := readyPolls p; document := document p;
              heights := heights p; scrolled := S (scrolled p) |} in
  let newHeight := scrollHeight p in
  (previousHeight <? newHeight, p, out).

(** The [while (hasNewContent)] loop of [scrape]; [None] when the fuel
    runs out while the page is still growing. *)
Fixpoint lazy_load_loop (fuel : nat) (hasNewContent : bool) (p : page)
    : option (page * list agentEffect) :=
  if hasNewContent then
    match fuel with
    | O => None
    | S fuel' =>
        let '(hasNewContent, p, out1) := scrollAndCheck 2000 p in
        '(p, out2) ← lazy_load_loop fuel' hasNewContent p;
        Some (p, out1 ++ out2)
    end
  else Some (p, []).

Definition scrape (fuel : nat) (p : page) : option (page * list agentEffect) :=
  let '(p, out1) := waitForPageLoad p in
  '(p, out2) ← lazy_load_loop fuel true p;
  let scrapedData := extractData (document p) in
  Some (p, [AgentLog "Starting scrape process on page..."] ++ out1 ++ out2 ++
           [AgentLogData scrapedData; RuntimeSendMessage (ScrapedData scrapedData)]).

Section PageAgent.

(** The page that activating the element at a given path leads to. *)
Variable after_click : page -> list nat -> page.

Definition paginate (fuel : nat) (p : page) : option (page * list agentEffect) :=
  match querySelector_next root_position (document p) with
  | Some (pos, nextButton) =>
      let out1 := [AgentLog "Found next page button. Clicking..."; Click (path pos)] in
      let p := after_click p (path pos) in
      let '(p, out2) := waitForPageLoad p in
      '(p, out3) ← scrape fuel p;
      Some (p, out1 ++ out2 ++ out3)
  | None =>
      Some (p, [AgentLog "No next page button found. Scraping complete.";
                RuntimeSendMessage ScrapeComplete])
  end.

(** The agent's own message listener. *)
Definition onDirective (fuel : nat) (d : directive) (p : page)
    : option (page * list agentEffect) :=
  match d with
  | ScrapePage => scrape fuel p
  | Paginate => paginate fuel p
  end.

End PageAgent.

(** Number of scroll-and-wait cycles in a trace: each cycle scrolls once. *)
Definition is_scroll (e : agentEffect) : bool :=
  match e with ScrollTo _ _ => true | _ => false end.

Definition scroll_cycles (out : list agentEffect) : nat :=
  length (filter (λ e, is_scroll e = true) out).

(** ** Vocabulary of the statements *)

(** [occurs c s]: the character [c] appears in [s]. *)
Fixpoint occurs (c : ascii) (s : string) : bool :=
  match s with
  | EmptyString => false
  | String x r => bool_decide (x = c) || occurs c r
  end.


(** Where [downloadFile] stores a claimed name. *)
Definition stored_as (filename : string) : string := ("scraped_images/" +:+ filename)%string.

(** What the download loop leaves in the trace for one URL claimed under
    [filename]: the download request, then the error line if it failed. *)
Definition download_trace (dl : string -> string -> option string)
    (claimed : string * string) : list effect :=
  let '(url, filename) := claimed in
  DownloadsDownload url (stored_as filename) ::
  match dl url (stored_as filename) with
  | Some msg => [ErrorFailedDownload url msg]
  | None => []
  end.

(** What [downloadFile] returns for a URL claimed under [filename]. *)
Definition result_of (dl : string -> string -> option string)
    (url filename : string) : downloadResult :=
  match dl url (stored_as filename) with
  | None => Success url
  | Some msg => Failure url msg
  end.



(** All elements of a document in document order, each with its position. *)
Fixpoint elements_in_order (p : position) (e : element) : list (position * element) :=
  (p, e) ::
  (fix scan (i : nat) (kids : list element) : list (position * element) :=
     match kids with
     | [] => []
     | k :: rest =>
         elements_in_order (child_position p e i (bool_decide (rest = []))) k
           ++ scan (S i) rest
     end) 0%nat (children e).

Definition is_next_control (pe : position * element) : bool := matches_next pe.1 pe.2.

(** A simulated page: the scroll height follows the given measurements and
    stays at the last one afterwards. *)
Definition simulated_heights (measurements : list Z) (cycle : nat) : Z :=
  default (default 0 (last measurements)) (measurements !! cycle).

Definition simulated_page (polls : nat) (doc : element) (measurements : list Z) : page :=
  {| readyPolls := polls; document := doc;
     heights := simulated_heights measurements; scrolled := 0 |}.

Definition after_cycles (n : nat) (p : page) : page :=
  {| readyPolls := readyPolls p; document := document p;
     heights := heights p; scrolled := (scrolled p + n)%nat |}.

(** ** Documents used in the examples *)

Definition empty_document : element := Element "html" [] [] [].

Definition rel_next_link : element :=
  Element "a" [] [("rel", "next"); ("href", "https://example.com/page/2")]%string [].

Definition next_page_button : element :=
  Element "button" ["next-page"%string] [] [].


(** The link comes first, the button second. *)
Definition link_before_button : element :=
  Element "body" [] [] [rel_next_link; next_page_button].

(** Three images, two of them inside links, and no pagination control. *)
Definition three_images : element :=
  Element "body" [] []
    [ Element "a" [] [("href", "https://example.com/one")]%string
        [Element "img" [] [("src", "https://example.com/one.jpg")]%string []];
      Element "div" [] []
        [Element "a" [] [("href", "https://example.com/two")]%string
           [Element "span" [] []
              [Element "img" [] [("src", "https://example.com/two.jpg")]%string []]]];
      Element "img" [] [("src", "https://example.com/three.jpg")]%string [] ].

(** * Further definitions *)

(** ** Vocabulary of the further properties: the coordinator *)

(** The payload a message carries: empty for every message but
    [scrapedData]. *)
Definition payload (m : message) : urlLists :=
  match m with
  | ScrapedData data => data
  | _ => {| thumbnails := []; destinations := [] |}
  end.

Definition is_payload (m : message) : bool :=
  match m with ScrapedData _ => true | _ => false end.

Definition is_complete (m : message) : bool :=
  match m with ScrapeComplete => true | _ => false end.

Definition is_begin (e : effect) : bool :=
  match e with TabsSendMessage ScrapePage => true | _ => false end.

Definition is_advance (e : effect) : bool :=
  match e with TabsSendMessage Paginate => true | _ => false end.

(** The URLs and the paths of the download requests of a trace. *)
Definition download_request (e : effect) : option (string * string) :=
  match e with
  | DownloadsDownload url filename => Some (url, filename)
  | _ => None
  end.



Definition is_start (m : message) : bool :=
  match m with StartScrape => true | _ => false end.

Definition count_effects (f : effect → bool) (out : list effect) : nat :=
  length (filter (λ e, f e = true) out).

Definition count_messages (f : message → bool) (ms : list message) : nat :=
  length (filter (λ m, f m = true) ms).

(** The thumbnails, and the destinations, of all payloads of a message
    sequence, in arrival order. *)
Definition all_thumbnails (ms : list message) : list string :=
  flat_map (λ m, thumbnails (payload m)) ms.

Definition all_destinations (ms : list message) : list string :=
  flat_map (λ m, destinations (payload m)) ms.

(** ** Vocabulary of the further properties: the page agent *)

(** The messages a trace of the page agent sends to the coordinator. *)
Definition sent_message (e : agentEffect) : option message :=
  match e with RuntimeSendMessage m => Some m | _ => None end.

Definition sent_messages (out : list agentEffect) : list message :=
  omap sent_message out.



(** The [i]-th scroll-and-wait cycle of the lazy-load loop started on [p]:
    a scroll to the height measured before it, then the wait. *)
Definition scroll_round (p : page) (i : nat) : list agentEffect :=
  [ScrollTo 0 (heights p (scrolled p + i)); Wait 2000].





(** The directives a trace of the coordinator sends to the page agent. *)
Definition directive_sent (e : effect) : option directive :=
  match e with TabsSendMessage d => Some d | _ => None end.

Definition directives_sent (out : list effect) : list directive :=
  omap directive_sent out.

(** A character that the decimal printer never writes. *)
Definition not_a_digit (c : ascii) : Prop := ∀ d : N, pretty_N_char d ≠ c.


(** ** Page agent: the helper [getFilenameFromUrl] *)

Module JSArray.

(** [array.pop()]: the last element, [undefined] on an empty array, and
    the array that is left. *)
Definition pop (a : list string) : option string * list string :=
  (last a, removelast a).

End JSArray.

(** A string, or [undefined], read as a condition: only a non-empty
    string is truthy. *)
Definition truthy_string (v : option string) : bool :=
  match v with
  | Some s => negb (bool_decide (s = ""%string))
  | None => false
  end.

Section GetFilename.

(** [new URL(url).pathname]; [None] when the constructor throws. *)
Variable URL_pathname : string -> option string.

(** The file name and the lines written with [console.error]. *)
Definition getFilenameFromUrl (url : string) : string * list string :=
  match URL_pathname url with
  | Some pathname =>
      let pathSegments := JS.split pathname "/"%char in
      let '(popped, pathSegments) := JSArray.pop pathSegments in
      let filename :=
        if truthy_string popped then popped else (JSArray.pop pathSegments).1 in
      if truthy_string filename
      then (JS.interpolate (JS.split (JS.interpolate filename) "?"%char !! 0%nat), [])
      else ("unnamed_image.jpg"%string, [])
  | None => ("unnamed_image.jpg"%string, [("Invalid URL: " +:+ url)%string])
  end.

End GetFilename.

(** What the URL parser answers on the URLs of the examples; any other
    string is taken as invalid. *)
Definition example_pathname (url : string) : option string :=
  if bool_decide (url = "https://example.com/img/photo.jpg?w=640"%string)
  then Some "/img/photo.jpg"%string
  else if bool_decide (url = "https://example.com/albums/2024/"%string)
  then Some "/albums/2024/"%string
  else if bool_decide (url = "https://example.com//"%string)
  then Some "//"%string
  else None.

(** ** Page agent: the listener on raw actions *)

Section ContentScript.

Variable after_click : page -> list nat -> page.

(** The content script's listener, as it compares [message.action]: the
    two actions it knows, and nothing for any other. *)
Definition contentScript_onMessage (fuel : nat) (action : string) (p : page)
    : option (page * list agentEffect) :=
  if bool_decide (action = "scrapePage"%string) then scrape fuel p
  else if bool_decide (action = "paginate"%string) then paginate after_click fuel p
  else Some (p, []).

End ContentScript.

(** ** Popup: [popup_js_content] *)

(** An element's [classList], as the set of its tokens. *)
Module DOMTokenList.

Definition add (tokens : list string) (classes : gset string) : gset string :=
  classes ∪ list_to_set tokens.

Definition remove (tokens : list string) (classes : gset string) : gset string :=
  classes ∖ list_to_set tokens.

Definition toggle (token : string) (classes : gset string) : gset string :=
  if decide (token ∈ classes) then classes ∖ {[token]} else classes ∪ {[token]}.

End DOMTokenList.

(** The elements the script looks up, by the names of its constants: the
    class lists of the two tab buttons, of the two views, of the body and
    of the results panel, the text of the status line and the texts of the
    items of the URL list. *)
Record popup := Popup {
  listBtn : gset string;
  detailsBtn : gset string;
  listView : gset string;
  detailsView : gset string;
  body : gset string;
  listScraperStatus : string;
  listScraperResults : gset string;
  imageUrlList : list string
}.

Definition listBtnActiveClasses : list string :=
  ["bg-pink-500"; "text-white"; "shadow-lg"]%string.
Definition listBtnInactiveClasses : list string :=
  ["bg-blue-200"; "text-blue-800"; "hover:bg-blue-300"]%string.
Definition detailsBtnActiveClasses : list string :=
  ["bg-pink-500"; "text-white"; "shadow-lg"]%string.
Definition detailsBtnInactiveClasses : list string :=
  ["bg-blue-200"; "text-blue-800"; "hover:bg-blue-300"]%string.

(** The popup as [popup_html_content] declares it. *)
Definition popup_initial : popup :=
  {| listBtn := list_to_set
       ["flex"; "items-center"; "justify-center"; "font-semibold"; "py-3"; "px-6";
        "rounded-full"; "transition-all"; "duration-300";
        "bg-pink-500"; "text-white"; "shadow-lg"]%string;
     detailsBtn := list_to_set
       ["flex"; "items-center"; "justify-center"; "font-semibold"; "py-3"; "px-6";
        "rounded-full"; "transition-all"; "duration-300";
        "bg-blue-200"; "text-blue-800"; "hover:bg-blue-300"]%string;
     listView := list_to_set
       ["p-8"; "rounded-2xl"; "shadow-xl"; "bg-white"; "transition-colors";
        "duration-300"]%string;
     detailsView := list_to_set
       ["p-8"; "rounded-2xl"; "shadow-xl"; "bg-white"; "transition-colors";
        "duration-300"; "hidden"]%string;
     body := ∅;
     listScraperStatus := "Ready to scrape. Select a list element on the page.";
     listScraperResults := list_to_set
       ["mt-4"; "p-4"; "bg-blue-50"; "text-blue-800"; "rounded-xl"; "hidden"]%string;
     imageUrlList := [] |}.

(** The response handed to the callback of [chrome.tabs.sendMessage]:
    [undefined], or an object whose [images] property is [undefined] or an array. *)
Record scrapeResponse := ScrapeResponse { response_images : option (list string) }.

Inductive popupEvent :=
  | ClickListBtn
  | ClickDetailsBtn
  | ClickSettingsBtn
  | ClickDarkModeBtn
  | ClickStartListScrapeBtn
  | ResponseArrives (response : option scrapeResponse).

Inductive popupEffect :=
  | Alert (text : string)
  | SendToActiveTab (action : string) (type : string).

Definition popup_step (ev : popupEvent) (s : popup) : popup * list popupEffect :=
  match ev with
  | ClickListBtn =>
      ({| listBtn := DOMTokenList.remove listBtnInactiveClasses
                       (DOMTokenList.add listBtnActiveClasses (listBtn s));
          detailsBtn := DOMTokenList.remove detailsBtnActiveClasses
                          (DOMTokenList.add detailsBtnInactiveClasses (detailsBtn s));
          listView := DOMTokenList.remove ["hidden"%string] (listView s);
          detailsView := DOMTokenList.add ["hidden"%string] (detailsView s);
          body := body s;
          listScraperStatus := listScraperStatus s;
          listScraperResults := listScraperResults s;
          imageUrlList := imageUrlList s |}, [])
  | ClickDetailsBtn =>
      ({| listBtn := DOMTokenList.remove listBtnActiveClasses
                       (DOMTokenList.add listBtnInactiveClasses (listBtn s));
          detailsBtn := DOMTokenList.remove detailsBtnInactiveClasses
                          (DOMTokenList.add detailsBtnActiveClasses (detailsBtn s));
          listView := DOMTokenList.add ["hidden"%string] (listView s);
          detailsView := DOMTokenList.remove ["hidden"%string] (detailsView s);
          body := body s;
          listScraperStatus := listScraperStatus s;
          listScraperResults := listScraperResults s;
          imageUrlList := imageUrlList s |}, [])
  | ClickSettingsBtn => (s, [Alert "Settings button clicked!"])
  | ClickDarkModeBtn =>
      ({| listBtn := listBtn s; detailsBtn := detailsBtn s;
          listView := listView s; detailsView := detailsView s;
          body := DOMTokenList.toggle "dark" (body s);
          listScraperStatus := listScraperStatus s;
          listScraperResults := listScraperResults s;
          imageUrlList := imageUrlList s |}, [Alert "Dark mode toggle clicked!"])
  | ClickStartListScrapeBtn =>
      ({| listBtn := listBtn s; detailsBtn := detailsBtn s;
          listView := listView s; detailsView := detailsView s;
          body := body s;
          listScraperStatus := "Scraping images...";
          listScraperResults := listScraperResults s;
          imageUrlList := imageUrlList s |}, [SendToActiveTab "startScrape" "list"])
  | ResponseArrives response =>
      match response with
      | Some {| response_images := Some urls |} =>
          ({| listBtn := listBtn s; detailsBtn := detailsBtn s;
              listView := listView s; detailsView := detailsView s;
              body := body s;
              listScraperStatus := "Found " +:+ pretty (length urls) +:+ " images.";
              listScraperResults := DOMTokenList.remove ["hidden"%string]
                                      (listScraperResults s);
              imageUrlList := urls |}, [])
      | _ =>
          ({| listBtn := listBtn s; detailsBtn := detailsBtn s;
              listView := listView s; detailsView := detailsView s;
              body := body s;
              listScraperStatus := "No images found or an error occurred.";
              listScraperResults := DOMTokenList.add ["hidden"%string]
                                      (listScraperResults s);
              imageUrlList := imageUrlList s |}, [])
      end
  end.

(** A sequence of events handled one after the other. *)
Fixpoint popup_run (evs : list popupEvent) (s : popup) : popup * list popupEffect :=
  match evs with
  | [] => (s, [])
  | ev :: rest =>
      let '(s, out1) := popup_step ev s in
      let '(s, out2) := popup_run rest s in
      (s, out1 ++ out2)
  end.

(** ** Vocabulary of the further properties: the popup *)

Definition shown (classes : gset string) : Prop := "hidden"%string ∉ classes.

Definition highlighted (classes : gset string) : Prop :=
  "bg-pink-500"%string ∈ classes ∧ "bg-blue-200"%string ∉ classes.

(** The URLs of the last response that carried an [images] array, and
    whether the last response did. *)
Definition images_of (ev : popupEvent) : option (list string) :=
  match ev with
  | ResponseArrives (Some {| response_images := Some urls |}) => Some urls
  | _ => None
  end.

Definition is_response (ev : popupEvent) : bool :=
  match ev with ResponseArrives _ => true | _ => false end.

Definition last_images (evs : list popupEvent) : option (list string) :=
  last (omap images_of evs).

Definition last_response (evs : list popupEvent) : option popupEvent :=
  last (filter (λ ev, is_response ev = true) evs).

(** What the script keeps true of the two tabs. *)
Definition tabs_consistent (s : popup) : Prop :=
  (shown (listView s) ↔ ¬ shown (detailsView s)) ∧
  (shown (listView s) ↔ highlighted (listBtn s)) ∧
  (shown (detailsView s) ↔ highlighted (detailsBtn s)).

(** * Proofs *)

(** ** Facts about the string primitives *)

Lemma append_cons x a b : String x a +:+ b = String x (a +:+ b).
Proof. reflexivity. Qed.


Lemma append_assoc a b c : (a +:+ b) +:+ c = a +:+ (b +:+ c).
Proof. induction a as [|x a IH]; [done|]. rewrite !append_cons. by f_equal. Qed.

Lemma append_length a b : String.length (a +:+ b) = (String.length a + String.length b)%nat.
Proof. induction a as [|x a IH]; simpl; [done|]. by rewrite IH. Qed.

Lemma append_cancel_r a b c : a +:+ c = b +:+ c → a = b.
Proof.
  revert b. induction a as [|x a IH]; intros [|y b] H; simpl in *.
  - done.
  - apply (f_equal String.length) in H. rewrite !append_length in H. simpl in H. lia.
  - apply (f_equal String.length) in H. rewrite !append_length in H. simpl in H. lia.
  - injection H as -> H. f_equal. by apply IH.
Qed.

Lemma occurs_app c a b : occurs c (a +:+ b) = occurs c a || occurs c b.
Proof.
  induction a as [|x a IH]; simpl; [done|].
  rewrite IH. by rewrite orb_assoc.
Qed.

(** Splitting a string in which the separator does not occur. *)
Lemma split_head_absent s c : occurs c s = false → JS.split s c = [s].
Proof.
  induction s as [|x s IH]; simpl; [done|].
  intros H. apply orb_false_iff in H as [Hx Hs].
  apply bool_decide_eq_false in Hx.
  rewrite decide_False by done. by rewrite IH.
Qed.

(** Splitting at the first occurrence of the separator. *)
Lemma split_app s c rest :
  occurs c s = false → JS.split (s +:+ String c rest) c = s :: JS.split rest c.
Proof.
  induction s as [|x s IH]; simpl; intros H.
  - by rewrite decide_True.
  - apply orb_false_iff in H as [Hx Hs]. apply bool_decide_eq_false in Hx.
    rewrite decide_False by done. by rewrite IH.
Qed.

Lemma split_nonempty s c : ∃ p ps, JS.split s c = p :: ps.
Proof.
  induction s as [|x s (p & ps & IH)]; simpl; [by eauto|].
  destruct (decide (x = c)); [by eauto|]. rewrite IH. eauto.
Qed.


Lemma lastIndexOf_from_absent i s c :
  occurs c s = false → JS.lastIndexOf_from i s c = -1.
Proof.
  revert i. induction s as [|x s IH]; simpl; intros i H; [done|].
  apply orb_false_iff in H as [Hx Hs]. apply bool_decide_eq_false in Hx.
  rewrite IH by done. simpl. by rewrite decide_False.
Qed.

Lemma lastIndexOf_from_last i a c rest :
  0 <= i → occurs c rest = false →
  JS.lastIndexOf_from i (a +:+ String c rest) c = i + Z.of_nat (String.length a).
Proof.
  revert i. induction a as [|x a IH]; simpl; intros i Hi H.
  - rewrite lastIndexOf_from_absent by done. simpl. rewrite decide_True by done. lia.
  - rewrite IH by (done || lia).
    destruct (Z.leb_spec 0 (i + 1 + Z.of_nat (String.length a))); lia.
Qed.



Lemma drop_app a b : JS.drop (String.length a) (a +:+ b) = b.
Proof. induction a as [|x a IH]; simpl; [by destruct b|done]. Qed.



(** The text after the last occurrence of a character. *)
Lemma substring_after_last a c rest :
  occurs c rest = false →
  JS.substring (a +:+ String c rest) (JS.lastIndexOf (a +:+ String c rest) c + 1) = rest.
Proof.
  intros H. unfold JS.substring, JS.lastIndexOf.
  rewrite lastIndexOf_from_last by (done || lia).
  replace (Z.to_nat (Z.max 0 (0 + Z.of_nat (String.length a) + 1)))
    with (String.length (a +:+ String c "")) by (rewrite append_length; simpl; lia).
  replace (a +:+ String c rest) with ((a +:+ String c "") +:+ rest)
    by (by rewrite append_assoc).
  apply drop_app.
Qed.

(** ** The download gate *)


(** No inherited property name contains a dot; every suffixed name does. *)
Lemma inherited_no_dot k : JS.inherited k = true → occurs "." k = false.
Proof.
  unfold JS.inherited, JS.object_prototype_keys. intros H.
  apply bool_decide_eq_true in H.
  repeat (apply elem_of_cons in H as [->|H]; [reflexivity|]).
  by apply elem_of_nil in H.
Qed.

Lemma suffixed_has_dot o k : occurs "." (suffixed o k) = true.
Proof.
  unfold suffixed. rewrite !occurs_app. simpl.
  by rewrite !orb_true_r.
Qed.

Lemma suffixed_not_inherited o k : JS.inherited (suffixed o k) = false.
Proof.
  destruct (JS.inherited (suffixed o k)) eqn:H; [|done].
  apply inherited_no_dot in H. by rewrite suffixed_has_dot in H.
Qed.

(** Different counters give different names. *)
Lemma suffixed_inj o j k : suffixed o j = suffixed o k → j = k.
Proof.
  unfold suffixed. intros H.
  do 2 apply (inj (String.append _)) in H.
  apply append_cancel_r in H. by apply (inj pretty) in H.
Qed.

(** The suffixed name of a candidate with at least one dot. *)
Lemma suffixed_dotted stem ext more k :
  occurs "." stem = false → occurs "." ext = false →
  (more = ""%string ∨ ∃ m, more = String "." m) →
  suffixed (stem +:+ "." +:+ ext +:+ more) k = stem +:+ "_" +:+ pretty k +:+ "." +:+ ext.
Proof.
  intros Hs He Hm. unfold suffixed.
  change (stem +:+ "." +:+ ext +:+ more) with (stem +:+ String "." (ext +:+ more)).
  rewrite split_app by done. simpl.
  destruct Hm as [->|[m ->]].
  - replace (ext +:+ "") with ext by (clear; induction ext; [done|rewrite append_cons; congruence]).
    by rewrite split_head_absent.
  - by rewrite split_app.
Qed.

(** The suffixed name of a candidate without a dot. *)
Lemma suffixed_dotless name k :
  occurs "." name = false →
  suffixed name k = name +:+ "_" +:+ pretty k +:+ ".undefined".
Proof. intros H. unfold suffixed. by rewrite split_head_absent. Qed.

Lemma truthy_recorded files k : files !! k = Some true → truthy_entry files k = true.
Proof. unfold truthy_entry. by intros ->. Qed.

Lemma truthy_not_recorded files k :
  JS.inherited k = false → files !! k ≠ Some true → truthy_entry files k = false.
Proof.
  unfold truthy_entry. intros Hk Hne.
  destruct (files !! k) as [[]|]; done.
Qed.

Lemma falsy_not_recorded files k : truthy_entry files k = false → files !! k ≠ Some true.
Proof. unfold truthy_entry. intros H Hk. by rewrite Hk in H. Qed.

Lemma truthy_suffixed_recorded files o k :
  truthy_entry files (suffixed o k) = true → files !! suffixed o k = Some true.
Proof.
  unfold truthy_entry. destruct (files !! suffixed o k) as [b|].
  - by intros ->.
  - by rewrite suffixed_not_inherited.
Qed.

Lemma suffix_loop_unfold fuel files o c f :
  suffix_loop fuel files o c f =
  if truthy_entry files f then
    match fuel with
    | O => None
    | S fuel' => suffix_loop fuel' files o (S c) (suffixed o (S c))
    end
  else Some f.
Proof. by destruct fuel. Qed.

(** The loop ends: each name it rejects is a recorded one, and it never
    meets the same name twice. [X] bounds the recorded names still ahead. *)
Lemma suffix_loop_bounded fuel (X : gset string) files o c f :
  (∀ j, (c < j)%nat → truthy_entry files (suffixed o j) = true → suffixed o j ∈ X) →
  (size X < fuel)%nat →
  is_Some (suffix_loop fuel files o c f).
Proof.
  revert X c f. induction fuel as [|fuel IH]; intros X c f HX Hsize; [lia|].
  rewrite suffix_loop_unfold.
  destruct (truthy_entry files f); [|by eauto].
  destruct (truthy_entry files (suffixed o (S c))) eqn:Hnext.
  - apply (IH (X ∖ {[suffixed o (S c)]})).
    + intros j Hj Htr. apply elem_of_difference. split.
      * apply HX; [lia|done].
      * rewrite elem_of_singleton. intros Heq. apply suffixed_inj in Heq. lia.
    + assert (suffixed o (S c) ∈ X) as Hin by (apply HX; [lia|done]).
      assert (size (X ∖ {[suffixed o (S c)]}) < size X)%nat as Hlt; [|lia].
      by apply subset_size, subset_difference_elem_of.
  - rewrite suffix_loop_unfold, Hnext. eauto.
Qed.

Lemma claim_loop_total url files :
  is_Some (suffix_loop (claim_fuel files) files (candidate url) 0 (candidate url)).
Proof.
  unfold claim_fuel.
  apply (suffix_loop_bounded _ (dom files)).
  - intros j _ H. apply truthy_suffixed_recorded in H.
    apply elem_of_dom. eauto.
  - rewrite size_dom. lia.
Qed.

(** What the loop returns: a name that reads falsy, which is either the
    name it started from or the first suffixed name, counting up from the
    current counter, that reads falsy. *)
Lemma suffix_loop_result fuel files o c f name :
  suffix_loop fuel files o c f = Some name →
  truthy_entry files name = false ∧
  ((truthy_entry files f = false ∧ name = f) ∨
   (truthy_entry files f = true ∧
    ∃ k, (c < k)%nat ∧ name = suffixed o k ∧
         ∀ j, (c < j < k)%nat → truthy_entry files (suffixed o j) = true)).
Proof.
  revert c f. induction fuel as [|fuel IH]; intros c f; rewrite suffix_loop_unfold;
    destruct (truthy_entry files f) eqn:Hf; try done.
  - intros [= <-]. auto.
  - intros H. apply IH in H as [Hname Hcase]. split; [done|]. right. split; [done|].
    destruct Hcase as [[Hfree ->]|(Htaken & k & Hk & -> & Hbelow)].
    + exists (S c). split; [lia|]. split; [done|]. intros j Hj. lia.
    + exists k. split; [lia|]. split; [done|]. intros j Hj.
      destruct (decide (j = S c)) as [->|]; [done|]. apply Hbelow. lia.
  - intros [= <-]. auto.
Qed.

(** [claim] always returns, and what it returns. *)
Lemma claim_result url files :
  ∃ name, claim url files = Some (name, <[name := true]> files) ∧
    truthy_entry files name = false ∧
    ((truthy_entry files (candidate url) = false ∧ name = candidate url) ∨
     (truthy_entry files (candidate url) = true ∧
      ∃ k, (1 ≤ k)%nat ∧ name = suffixed (candidate url) k ∧
           ∀ j, (1 ≤ j < k)%nat → files !! suffixed (candidate url) j = Some true)).
Proof.
  destruct (claim_loop_total url files) as [name Hloop].
  exists name. unfold claim. rewrite Hloop. simpl. split; [done|].
  apply suffix_loop_result in Hloop as [Hname Hcase]. split; [done|].
  destruct Hcase as [?|(Htaken & k & Hk & -> & Hbelow)]; [by left|right].
  split; [done|]. exists k. split; [lia|]. split; [done|].
  intros j Hj. apply truthy_suffixed_recorded, Hbelow. lia.
Qed.

Lemma claim_fresh url files :
  truthy_entry files (candidate url) = false →
  claim url files = Some (candidate url, <[candidate url := true]> files).
Proof.
  intros Hfree.
  destruct (claim_result url files) as (name & Hclaim & _ & [[_ ->]|[Ht _]]);
    [done|congruence].
Qed.

(** When the candidate reads truthy, the claim is the first suffixed name
    that is not recorded. *)
Lemma claim_first_free url files k :
  truthy_entry files (candidate url) = true → (1 ≤ k)%nat →
  (∀ j, (1 ≤ j < k)%nat → files !! suffixed (candidate url) j = Some true) →
  files !! suffixed (candidate url) k ≠ Some true →
  claim url files =
    Some (suffixed (candidate url) k, <[suffixed (candidate url) k := true]> files).
Proof.
  intros Htaken Hk Hbelow Hfree.
  destruct (claim_result url files) as (name & Hclaim & Hname & [[Hf _]|(_ & k' & Hk' & -> & Hb')]).
  { congruence. }
  apply falsy_not_recorded in Hname.
  destruct (lt_eq_lt_dec k k') as [[Hlt| ->]|Hgt].
  - destruct Hfree. apply Hb'. lia.
  - done.
  - destruct Hname. apply Hbelow. lia.
Qed.

(** ** The coordinator's handlers *)

Section GateFacts.

Variable dl : string -> string -> option string.

(** [downloadFile] always returns a tagged result, whatever the download does. *)
Lemma downloadFile_result url st :
  ∃ name,
    claim url (downloadedFiles st) = Some (name, <[name := true]> (downloadedFiles st)) ∧
    downloadFile dl url st =
      Some (result_of dl url name,
            set_downloadedFiles (<[name := true]> (downloadedFiles st)) st,
            [DownloadsDownload url (stored_as name)]).
Proof.
  destruct (claim_result url (downloadedFiles st)) as (name & Hclaim & _).
  exists name. split; [done|].
  unfold downloadFile, result_of. rewrite Hclaim. simpl.
  unfold stored_as. by destruct (dl _ _).
Qed.

(** The download loop visits every URL; it changes neither [running] nor
    [results], and recorded names stay recorded. *)
Lemma download_all_result urls st :
  ∃ names st',
    length names = length urls ∧
    download_all dl urls st = Some (st', flat_map (download_trace dl) (zip urls names)) ∧
    running st' = running st ∧ results st' = results st ∧
    ∀ n, downloadedFiles st' !! n = Some true ∨
         downloadedFiles st' !! n = downloadedFiles st !! n.
Proof.
  revert st. induction urls as [|url urls IH]; intros st.
  - exists [], st. simpl. repeat split; auto.
  - destruct (downloadFile_result url st) as (name & _ & Hdl).
    destruct (IH (set_downloadedFiles (<[name := true]> (downloadedFiles st)) st))
      as (names & st' & Hlen & Hall & Hrun & Hres & Hmono).
    exists (name :: names), st'. split; [simpl; by rewrite Hlen|].
    split.
    + simpl. rewrite Hdl. simpl. rewrite Hall. simpl.
      unfold result_of. by destruct (dl url (stored_as name)).
    + split; [done|]. split; [done|].
      intros n. destruct (Hmono n) as [Hn|Hn]; [by left|].
      rewrite Hn. simpl.
      destruct (decide (name = n)) as [->|Hne].
      * left. by rewrite lookup_insert_eq.
      * right. by rewrite lookup_insert_ne.
Qed.

(** The whole [scrapedData] branch. *)
Lemma onMessage_scrapedData data st :
  ∃ names st',
    length names = length (thumbnails data) ∧
    onMessage dl (ScrapedData data) st =
      Some (st', [LogReceived data]
                 ++ flat_map (download_trace dl) (zip (thumbnails data) names)
                 ++ [TabsSendMessage Paginate;
                     SendResponse true "Scraped data received and downloads started."]) ∧
    running st' = running st ∧
    results st' = {| thumbnails := thumbnails (results st) ++ thumbnails data;
                     destinations := destinations (results st) ++ destinations data |}.
Proof.
  destruct (download_all_result (thumbnails data) (push_results data st))
    as (names & st' & Hlen & Hall & Hrun & Hres & _).
  exists names, st'. split; [done|]. split.
  - unfold onMessage. by rewrite Hall.
  - by rewrite Hrun, Hres.
Qed.

End GateFacts.

(** ** The page agent *)

Lemma head_filter_app {A} (P : A → Prop) `{∀ x, Decision (P x)} (l1 l2 : list A) :
  head (filter P (l1 ++ l2)) =
  match head (filter P l1) with
  | Some x => Some x
  | None => head (filter P l2)
  end.
Proof.
  rewrite filter_app. by destruct (filter P l1).
Qed.

Lemma filter_controls_none (l : list (position * element)) :
  Forall (λ pe, is_next_control pe = false) l →
  filter (λ pe, is_next_control pe = true) l = [].
Proof.
  induction 1 as [|pe l Hpe _ IH]; [done|].
  rewrite filter_cons_False by (by rewrite Hpe). exact IH.
Qed.

(** The depth-first walk returns the first element, in document order,
    that matches the selector list. *)
Lemma querySelector_next_first p e :
  querySelector_next p e
  = head (filter (λ pe, is_next_control pe = true) (elements_in_order p e)).
Proof.
  revert p. induction e as [n c a kids IH] using element_nested_ind. intros p.
  cbn [querySelector_next elements_in_order children].
  destruct (matches_next p (Element n c a kids)) eqn:Hm.
  - by rewrite filter_cons_True by exact Hm.
  - rewrite filter_cons_False by (unfold is_next_control; simpl; by rewrite Hm).
    clear Hm. pose (parent := Element n c a kids).
    change (Element n c a kids) with parent. clearbody parent.
    generalize 0%nat. induction IH as [|k rest Hk _ IHrest]; intros i; [done|].
    rewrite head_filter_app, <- Hk.
    destruct (querySelector_next _ k); [done|]. apply IHrest.
Qed.


Lemma no_match_is_none doc :
  Forall (λ pe, is_next_control pe = false) (elements_in_order root_position doc) →
  querySelector_next root_position doc = None.
Proof.
  intros Hall. rewrite querySelector_next_first.
  by rewrite filter_controls_none.
Qed.

(** [extractData] pushes to both lists once per image. *)
Lemma extract_lengths items acc :
  length (thumbnails (fold_left extract_one items acc))
    = (length (thumbnails acc) + length items)%nat ∧
  length (destinations (fold_left extract_one items acc))
    = (length (destinations acc) + length items)%nat.
Proof.
  revert acc. induction items as [|item items IH]; intros acc.
  - simpl. lia.
  - cbn [fold_left]. destruct (IH (extract_one acc item)) as [-> ->].
    destruct item as [img a]. simpl.
    rewrite !length_app. simpl. lia.
Qed.

Lemma extractData_balanced doc :
  length (thumbnails (extractData doc)) = length (destinations (extractData doc)).
Proof.
  unfold extractData.
  destruct (extract_lengths (images None doc) {| thumbnails := []; destinations := [] |})
    as [-> ->].
  done.
Qed.

Lemma lazy_load_loop_unfold fuel b p :
  lazy_load_loop fuel b p =
  if b then
    match fuel with
    | O => None
    | S fuel' =>
        let '(hasNewContent, p, out1) := scrollAndCheck 2000 p in
        '(p, out2) ← lazy_load_loop fuel' hasNewContent p;
        Some (p, out1 ++ out2)
    end
  else Some (p, []).
Proof. by destruct fuel. Qed.

Lemma after_cycles_S n p :
  after_cycles n {| readyPolls := readyPolls p; document := document p;
                    heights := heights p; scrolled := S (scrolled p) |}
  = after_cycles (S n) p.
Proof. unfold after_cycles. simpl. f_equal. lia. Qed.

(** The loop goes on exactly as long as the height grows. *)
Lemma lazy_load_loop_cycles n : ∀ fuel p,
  (∀ i, (i < n)%nat → heights p (scrolled p + i) < heights p (scrolled p + i + 1)) →
  heights p (scrolled p + n + 1) <= heights p (scrolled p + n) →
  (n < fuel)%nat →
  ∃ out, lazy_load_loop fuel true p = Some (after_cycles (n + 1) p, out) ∧
         scroll_cycles out = (n + 1)%nat.
Proof.
  induction n as [|n IH]; intros fuel p Hgrow Hstable Hfuel;
    (destruct fuel as [|fuel]; [lia|]).
  - rewrite lazy_load_loop_unfold. unfold scrollAndCheck, scrollHeight. cbn [scrolled heights].
    rewrite Nat.add_0_r, Nat.add_1_r in Hstable.
    rewrite (proj2 (Z.ltb_ge _ _) Hstable).
    rewrite lazy_load_loop_unfold. cbn -[after_cycles].
    exists [ScrollTo 0 (heights p (scrolled p)); Wait 2000]. split; [|reflexivity].
    do 2 f_equal. unfold after_cycles. f_equal. lia.
  - rewrite lazy_load_loop_unfold. unfold scrollAndCheck, scrollHeight. cbn [scrolled heights].
    pose proof (Hgrow 0%nat ltac:(lia)) as H0.
    rewrite Nat.add_0_r, Nat.add_1_r in H0.
    rewrite (proj2 (Z.ltb_lt _ _) H0).
    destruct (IH fuel {| readyPolls := readyPolls p; document := document p;
                         heights := heights p; scrolled := S (scrolled p) |})
      as (out & Hloop & Hcycles).
    + intros i Hi. cbn [scrolled heights].
      specialize (Hgrow (S i) ltac:(lia)).
      by replace (S (scrolled p) + i)%nat with (scrolled p + S i)%nat by lia.
    + cbn [scrolled heights].
      by replace (S (scrolled p) + n)%nat with (scrolled p + S n)%nat by lia.
    + lia.
    + rewrite Hloop. cbn -[after_cycles scroll_cycles].
      rewrite after_cycles_S. eexists. split; [done|].
      unfold scroll_cycles in *.
      rewrite filter_cons_True by done. rewrite filter_cons_False by done.
      simpl. by rewrite Hcycles.
Qed.

(** A page that never stops growing exhausts any fuel. *)
Lemma lazy_load_loop_diverges fuel : ∀ p,
  (∀ i, heights p i < heights p (S i)) → lazy_load_loop fuel true p = None.
Proof.
  induction fuel as [|fuel IH]; intros p Hgrow; [done|].
  rewrite lazy_load_loop_unfold. unfold scrollAndCheck, scrollHeight. cbn [scrolled heights].
  rewrite (proj2 (Z.ltb_lt _ _) (Hgrow _)).
  by rewrite IH.
Qed.

(** * The claims *)

(** ** The model on two small runs *)

Example three_images_extracted :
  extractData three_images
  = {| thumbnails := ["https://example.com/one.jpg"; "https://example.com/two.jpg";
                      "https://example.com/three.jpg"]%string;
       destinations := ["https://example.com/one"; "https://example.com/two"; ""]%string |}.
Proof. reflexivity. Qed.

Example single_page_run :
  let stay := (λ (p : page) (_ : list nat), p) in
  let start := simulated_page 1 three_images [500] in
  let loaded := simulated_page 0 three_images [500] in
  onDirective stay 1 ScrapePage start
  = Some (after_cycles 1 loaded,
          [AgentLog "Starting scrape process on page..."; Wait 500; Wait 2000;
           ScrollTo 0 500; Wait 2000;
           AgentLogData (extractData three_images);
           RuntimeSendMessage (ScrapedData (extractData three_images))]) ∧
  onDirective stay 1 Paginate (after_cycles 1 loaded)
  = Some (after_cycles 1 loaded,
          [AgentLog "No next page button found. Scraping complete.";
           RuntimeSendMessage ScrapeComplete]).
Proof. split; reflexivity. Qed.

Example two_page_run :
  let to_last_page := (λ (_ : page) (_ : list nat), simulated_page 0 three_images [700]) in
  let first := simulated_page 0 link_before_button [500; 900; 900] in
  onDirective to_last_page 1 Paginate first
  = Some (after_cycles 1 (simulated_page 0 three_images [700]),
          [AgentLog "Found next page button. Clicking..."; Click [0%nat]; Wait 2000;
           AgentLog "Starting scrape process on page..."; Wait 2000;
           ScrollTo 0 700; Wait 2000;
           AgentLogData (extractData three_images);
           RuntimeSendMessage (ScrapedData (extractData three_images))]).
Proof. reflexivity. Qed.

(** ** C1: starting a scrape *)

(** C1, counterexample. After a first run has completed, a second
    [startScrape] received while idle sets [running] but resets nothing: the
    thumbnails, destinations and claimed file names of the first run are
    still there. *)
Lemma second_start_keeps_first_run :
  let dl := (λ _ _ : string, None) in
  let data := {| thumbnails := ["https://example.com/photo.jpg"%string];
                 destinations := [""%string] |} in
  ∃ idle out1 st' out2,
    run dl [StartScrape; ScrapedData data; ScrapeComplete] initial_state = Some (idle, out1) ∧
    running idle = false ∧
    onMessage dl StartScrape idle = Some (st', out2) ∧
    running st' = true ∧
    thumbnails (results st') = ["https://example.com/photo.jpg"%string] ∧
    destinations (results st') = [""%string] ∧
    downloadedFiles st' !! "photo.jpg"%string = Some true.
Proof.
  eexists _, _, _, _. split; [vm_compute; reflexivity|].
  split; [reflexivity|]. split; [vm_compute; reflexivity|].
  repeat split; vm_compute; reflexivity.
Qed.

(** C1, as amended. While idle, [startScrape] sets [running] and sends the
    [scrapePage] directive to the active tab; while running it does nothing.
    In both cases [results] and [downloadedFiles] are left as they were, and
    two [startScrape] in succession send the directive at most once. *)
Theorem start_sets_running_and_begins dl st :
  (running st = false →
     onMessage dl StartScrape st = Some (set_running true st, [TabsSendMessage ScrapePage])) ∧
  (running st = true → onMessage dl StartScrape st = Some (st, [])) ∧
  results (set_running true st) = results st ∧
  downloadedFiles (set_running true st) = downloadedFiles st ∧
  running (set_running true st) = true ∧
  run dl [StartScrape; StartScrape] st
    = Some (set_running true st,
            if running st then [] else [TabsSendMessage ScrapePage]).
Proof.
  split; [|split; [|split; [|split; [|split]]]]; try reflexivity.
  - intros H. unfold onMessage. by rewrite H.
  - intros H. unfold onMessage. by rewrite H.
  - destruct st as [[] res files page height]; reflexivity.
Qed.

Lemma start_sets_running_and_begins_witness :
  onMessage (λ _ _ : string, None) StartScrape initial_state
    = Some (set_running true initial_state, [TabsSendMessage ScrapePage]).
Proof.
  apply (proj1 (start_sets_running_and_begins (λ _ _ : string, None) initial_state)).
  reflexivity.
Defined.

(** ** C2: claiming a file name *)


(** A candidate that is a property name inherited from [Object.prototype]
    is suffixed although nothing was recorded. *)
Lemma inherited_name_is_suffixed :
  claim "https://example.com/constructor" ∅
  = Some ("constructor_1.undefined"%string, {[ "constructor_1.undefined"%string := true ]}).
Proof. vm_compute. reflexivity. Qed.



(** ** C3: the two accumulated lists have equal lengths *)

(** C3, counterexample. A payload with one thumbnail and no destination,
    received while running, is accumulated as it is: afterwards the two
    lists differ in length. *)
Lemma unbalanced_payload_unbalances_results :
  let dl := (λ _ _ : string, None) in
  let st := set_running true initial_state in
  let data := {| thumbnails := ["https://example.com/a.jpg"%string]; destinations := [] |} in
  running st = true ∧
  length (thumbnails (results st)) = length (destinations (results st)) ∧
  ∃ st' out,
    onMessage dl (ScrapedData data) st = Some (st', out) ∧
    length (thumbnails (results st')) ≠ length (destinations (results st')).
Proof.
  split; [reflexivity|]. split; [reflexivity|].
  eexists _, _. split; [vm_compute; reflexivity|]. simpl. lia.
Qed.

(** C3, as amended. A payload whose two lists have equal lengths keeps the
    accumulated lists at equal lengths; every payload built by
    [extractData] is such a payload; and in general each accumulated list
    grows by the length of the corresponding list of the payload. *)
Theorem balanced_payload_keeps_lengths_equal :
  (∀ dl data st,
     length (thumbnails (results st)) = length (destinations (results st)) →
     length (thumbnails data) = length (destinations data) →
     ∃ st' out,
       onMessage dl (ScrapedData data) st = Some (st', out) ∧
       length (thumbnails (results st')) = length (destinations (results st'))) ∧
  (∀ doc, length (thumbnails (extractData doc)) = length (destinations (extractData doc))) ∧
  (∀ dl data st,
     ∃ st' out,
       onMessage dl (ScrapedData data) st = Some (st', out) ∧
       length (thumbnails (results st'))
         = (length (thumbnails (results st)) + length (thumbnails data))%nat ∧
       length (destinations (results st'))
         = (length (destinations (results st)) + length (destinations data))%nat).
Proof.
  split; [|split].
  - intros dl data st Hst Hdata.
    destruct (onMessage_scrapedData dl data st) as (names & st' & _ & Hmsg & _ & Hres).
    eexists _, _. split; [exact Hmsg|].
    rewrite Hres. simpl. rewrite !length_app. lia.
  - apply extractData_balanced.
  - intros dl data st.
    destruct (onMessage_scrapedData dl data st) as (names & st' & _ & Hmsg & _ & Hres).
    eexists _, _. split; [exact Hmsg|].
    rewrite Hres. simpl. by rewrite !length_app.
Qed.

Lemma balanced_payload_keeps_lengths_equal_witness :
  let dl := (λ _ _ : string, None) in
  let data := {| thumbnails := ["https://example.com/a.jpg"%string];
                 destinations := ["https://example.com/a.html"%string] |} in
  ∃ st' out,
    onMessage dl (ScrapedData data) initial_state = Some (st', out) ∧
    length (thumbnails (results st')) = length (destinations (results st')).
Proof.
  apply (proj1 balanced_payload_keeps_lengths_equal); reflexivity.
Defined.

(** ** C4: a payload with unequal lengths *)

(** C4, counterexample. A payload with two thumbnails and one destination
    is not rejected: both lists end up in [results]. *)
Lemma mismatched_payload_is_accumulated :
  let dl := (λ _ _ : string, None) in
  let st := set_running true initial_state in
  let data := {| thumbnails := ["https://example.com/a.jpg"%string; "https://example.com/b.jpg"%string];
                 destinations := ["https://example.com/a.html"%string] |} in
  length (thumbnails data) ≠ length (destinations data) ∧
  ∃ st' out,
    onMessage dl (ScrapedData data) st = Some (st', out) ∧
    thumbnails (results st') = thumbnails data ∧
    destinations (results st') = destinations data ∧
    results st' ≠ results st.
Proof.
  split; [simpl; lia|].
  eexists _, _. split; [vm_compute; reflexivity|]. simpl. done.
Qed.

(** C4, as amended. Every [scrapedData] payload, whatever the lengths of
    its lists, is logged as received and appended to [results]; [running]
    is unchanged and the handler ends by sending the [paginate] directive. *)
Theorem payload_is_appended_then_advance dl data st :
  ∃ st' downloads,
    onMessage dl (ScrapedData data) st
      = Some (st', [LogReceived data] ++ downloads ++
                   [TabsSendMessage Paginate;
                    SendResponse true "Scraped data received and downloads started."]) ∧
    thumbnails (results st') = thumbnails (results st) ++ thumbnails data ∧
    destinations (results st') = destinations (results st) ++ destinations data ∧
    running st' = running st.
Proof.
  destruct (onMessage_scrapedData dl data st) as (names & st' & _ & Hmsg & Hrun & Hres).
  eexists _, _. split; [exact Hmsg|]. by rewrite Hres.
Qed.

(** ** C5: which pagination control is chosen *)




(** ** C6: the end of a run *)


(** [scrapeComplete] is handled in the same way when no scrape is running. *)
Lemma complete_is_handled_while_idle :
  onMessage (λ _ _ : string, None) ScrapeComplete initial_state
  = Some (initial_state,
          [LogComplete {| thumbnails := []; destinations := [] |};
           SendResponse true "Scraping process finished."]).
Proof. reflexivity. Qed.



(** ** C7: failed downloads *)

(** C7. [downloadFile] always returns, with [Success] when the download
    resolves and [Failure] carrying the error message when it rejects. For
    every payload the handler returns too: its trace holds, per thumbnail
    in order, the download request followed by an error line exactly when
    that download failed, and ends with the [paginate] directive; [running]
    is unchanged. *)
Theorem download_failures_do_not_block_advance dl :
  (∀ url st,
     ∃ name st',
       downloadFile dl url st
         = Some (result_of dl url name, st', [DownloadsDownload url (stored_as name)]) ∧
       (dl url (stored_as name) = None ∧ result_of dl url name = Success url ∨
        ∃ msg, dl url (stored_as name) = Some msg ∧ result_of dl url name = Failure url msg)) ∧
  (∀ data st,
     ∃ names st',
       length names = length (thumbnails data) ∧
       onMessage dl (ScrapedData data) st
         = Some (st', [LogReceived data]
                      ++ flat_map (download_trace dl) (zip (thumbnails data) names)
                      ++ [TabsSendMessage Paginate;
                          SendResponse true "Scraped data received and downloads started."]) ∧
       running st' = running st).
Proof.
  split.
  - intros url st. destruct (downloadFile_result dl url st) as (name & _ & Hdl).
    eexists _, _. split; [exact Hdl|]. unfold result_of.
    destruct (dl url (stored_as name)); eauto.
  - intros data st.
    destruct (onMessage_scrapedData dl data st) as (names & st' & Hlen & Hmsg & Hrun & _).
    by exists names, st'.
Qed.

Example all_downloads_fail_still_advances :
  let dl := (λ _ _ : string, Some "NETWORK_FAILED"%string) in
  let data := {| thumbnails := ["https://example.com/a.jpg"%string; "https://example.com/a.jpg"%string];
                 destinations := [""%string; ""%string] |} in
  ∃ st',
    onMessage dl (ScrapedData data) (set_running true initial_state)
    = Some (st',
        [LogReceived data;
         DownloadsDownload "https://example.com/a.jpg" "scraped_images/a.jpg";
         ErrorFailedDownload "https://example.com/a.jpg" "NETWORK_FAILED";
         DownloadsDownload "https://example.com/a.jpg" "scraped_images/a_1.jpg";
         ErrorFailedDownload "https://example.com/a.jpg" "NETWORK_FAILED";
         TabsSendMessage Paginate;
         SendResponse true "Scraped data received and downloads started."]) ∧
    running st' = true.
Proof. eexists. split; [vm_compute; reflexivity|reflexivity]. Qed.

(** ** C8: the lazy-load loop *)

(** C8. If the height grows at each of the first [n] comparisons and does
    not grow at the next one, the loop performs [n + 1] scroll-and-wait
    cycles and stops, given fuel for them. On the measurements
    [500, 900, 900] it performs exactly two. *)
Theorem lazy_load_stops_at_first_stable_height :
  (∀ n fuel p,
     (∀ i, (i < n)%nat → heights p (scrolled p + i) < heights p (scrolled p + i + 1)) →
     heights p (scrolled p + n + 1) <= heights p (scrolled p + n) →
     (n < fuel)%nat →
     ∃ out, lazy_load_loop fuel true p = Some (after_cycles (n + 1) p, out) ∧
            scroll_cycles out = (n + 1)%nat) ∧
  (∀ fuel doc polls,
     (2 ≤ fuel)%nat →
     lazy_load_loop fuel true (simulated_page polls doc [500; 900; 900])
     = Some (after_cycles 2 (simulated_page polls doc [500; 900; 900]),
             [ScrollTo 0 500; Wait 2000; ScrollTo 0 900; Wait 2000])).
Proof.
  split.
  - intros n fuel p. apply lazy_load_loop_cycles.
  - intros fuel doc polls Hfuel.
    destruct fuel as [|[|fuel]]; [lia|lia|].
    rewrite lazy_load_loop_unfold. cbn. by destruct fuel.
Qed.

Lemma lazy_load_stops_at_first_stable_height_witness :
  ∃ out,
    lazy_load_loop 2 true (simulated_page 0 empty_document [500; 900; 900])
    = Some (after_cycles (1 + 1) (simulated_page 0 empty_document [500; 900; 900]), out) ∧
    scroll_cycles out = (1 + 1)%nat.
Proof.
  apply (proj1 lazy_load_stops_at_first_stable_height 1%nat 2%nat
           (simulated_page 0 empty_document [500; 900; 900])).
  - intros i Hi. assert (i = 0%nat) as -> by lia. reflexivity.
  - vm_compute. discriminate.
  - lia.
Defined.

(** ** C9: where the suffix goes *)

(** C9. When the candidate collides, the name returned is built from the
    piece before the first dot, the counter, and the piece between the
    first and the second dot: [stem_k.ext] for a candidate
    [stem.ext.more], and [name_k.undefined] for a candidate without a dot.
    The counter is 1 unless the name with counter 1 is recorded too. *)
Theorem collision_suffix_splits_at_first_dot url files :
  truthy_entry files (candidate url) = true →
  ∃ k name,
    claim url files = Some (name, <[name := true]> files) ∧
    (1 ≤ k)%nat ∧
    (files !! suffixed (candidate url) 1 ≠ Some true → k = 1%nat) ∧
    (∀ stem ext more,
       candidate url = stem +:+ "." +:+ ext +:+ "." +:+ more →
       occurs "." stem = false → occurs "." ext = false →
       name = stem +:+ "_" +:+ pretty k +:+ "." +:+ ext) ∧
    (occurs "." (candidate url) = false →
       name = candidate url +:+ "_" +:+ pretty k +:+ ".undefined").
Proof.
  intros Htaken.
  destruct (claim_result url files) as (name & Hclaim & Hname & [[Hf _]|(_ & k & Hk & -> & Hbelow)]).
  { congruence. }
  exists k, (suffixed (candidate url) k).
  split; [done|]. split; [done|]. split; [|split].
  - intros Hfree. destruct (decide (k = 1%nat)) as [|Hne]; [done|].
    destruct Hfree. apply Hbelow. lia.
  - intros stem ext more -> Hstem Hext.
    apply suffixed_dotted; eauto.
  - apply suffixed_dotless.
Qed.

Lemma collision_suffix_splits_at_first_dot_witness :
  ∃ k name,
    claim "https://example.com/files/archive.tar.gz" {[ "archive.tar.gz"%string := true ]}
      = Some (name, <[name := true]> {[ "archive.tar.gz"%string := true ]}) ∧
    (1 ≤ k)%nat ∧
    (({[ "archive.tar.gz"%string := true ]} : gmap string bool)
       !! suffixed (candidate "https://example.com/files/archive.tar.gz") 1 ≠ Some true →
     k = 1%nat) ∧
    (∀ stem ext more,
       candidate "https://example.com/files/archive.tar.gz" = stem +:+ "." +:+ ext +:+ "." +:+ more →
       occurs "." stem = false → occurs "." ext = false →
       name = stem +:+ "_" +:+ pretty k +:+ "." +:+ ext) ∧
    (occurs "." (candidate "https://example.com/files/archive.tar.gz") = false →
       name = candidate "https://example.com/files/archive.tar.gz" +:+ "_" +:+ pretty k +:+ ".undefined").
Proof.
  apply (collision_suffix_splits_at_first_dot
           "https://example.com/files/archive.tar.gz"
           {[ "archive.tar.gz"%string := true ]}).
  reflexivity.
Defined.

Example archive_tar_gz_collides :
  claim "https://example.com/files/archive.tar.gz" {[ "archive.tar.gz"%string := true ]}
  = Some ("archive_1.tar"%string,
          <[ "archive_1.tar"%string := true ]> {[ "archive.tar.gz"%string := true ]}).
Proof. vm_compute. reflexivity. Qed.

Example dotless_name_collides :
  claim "https://example.com/files/README" {[ "README"%string := true ]}
  = Some ("README_1.undefined"%string,
          <[ "README_1.undefined"%string := true ]> {[ "README"%string := true ]}).
Proof. vm_compute. reflexivity. Qed.

(** ** C10: a failed download keeps its name *)

(** C10. [downloadFile] records the name it claims before the download is
    attempted, so the name is recorded whatever the outcome, and stays
    recorded through later downloads. A later [downloadFile] for a URL with
    the same candidate gets a different, suffixed name. *)
Theorem failed_download_keeps_its_name dl url1 url2 between st :
  candidate url1 = candidate url2 →
  ∃ name1 st1 st2 out name2 st3 k,
    downloadFile dl url1 st
      = Some (result_of dl url1 name1, st1, [DownloadsDownload url1 (stored_as name1)]) ∧
    (∀ msg, dl url1 (stored_as name1) = Some msg →
       result_of dl url1 name1 = Failure url1 msg) ∧
    downloadedFiles st1 !! name1 = Some true ∧
    download_all dl between st1 = Some (st2, out) ∧
    downloadedFiles st2 !! name1 = Some true ∧
    downloadFile dl url2 st2
      = Some (result_of dl url2 name2, st3, [DownloadsDownload url2 (stored_as name2)]) ∧
    name2 ≠ name1 ∧
    (1 ≤ k)%nat ∧ name2 = suffixed (candidate url2) k.
Proof.
  intros Hsame.
  destruct (downloadFile_result dl url1 st) as (name1 & Hclaim1 & Hdl1).
  set (st1 := set_downloadedFiles (<[name1 := true]> (downloadedFiles st)) st) in *.
  destruct (download_all_result dl between st1) as (names & st2 & _ & Hall & _ & _ & Hmono).
  destruct (downloadFile_result dl url2 st2) as (name2 & Hclaim2 & Hdl2).
  assert (∀ n, downloadedFiles st2 !! n = Some true ∨
               (n ≠ name1 ∧ downloadedFiles st2 !! n = downloadedFiles st !! n)) as Hgrow.
  { intros n. destruct (Hmono n) as [Hn|Hn]; [by left|].
    rewrite Hn. simpl. destruct (decide (name1 = n)) as [->|Hne].
    - left. by rewrite lookup_insert_eq.
    - right. split; [done|]. by rewrite lookup_insert_ne. }
  assert (downloadedFiles st2 !! name1 = Some true) as Hkept.
  { by destruct (Hgrow name1) as [?|[? _]]. }
  destruct (claim_result url2 (downloadedFiles st2))
    as (n & Hclaim2' & Hfree & Hcase).
  rewrite Hclaim2 in Hclaim2'. injection Hclaim2' as <- _.
  assert (name2 ≠ name1) as Hne.
  { intros ->. by apply falsy_not_recorded in Hfree. }
  assert (∃ k, (1 ≤ k)%nat ∧ name2 = suffixed (candidate url2) k) as (k & Hk & Hname2).
  { destruct Hcase as [[Hf ->]|(_ & k & Hk & -> & _)]; [|by eauto].
    (* The candidate reads falsy at the second claim. It read the same at
       the first claim, which therefore took the candidate itself: the
       very name the second claim is about to take. *)
    exfalso.
    destruct (Hgrow (candidate url2)) as [Hrec|[_ Hsame2]].
    { by apply falsy_not_recorded in Hf. }
    assert (truthy_entry (downloadedFiles st) (candidate url1) = false) as Hf1.
    { rewrite Hsame. revert Hf. unfold truthy_entry. by rewrite Hsame2. }
    rewrite (claim_fresh _ _ Hf1) in Hclaim1. injection Hclaim1 as Hn _.
    congruence. }
  eexists name1, st1, st2, _, name2, _, k.
  split; [exact Hdl1|]. split.
  { intros msg Hmsg. unfold result_of. by rewrite Hmsg. }
  split; [simpl; by rewrite lookup_insert_eq|].
  split; [exact Hall|]. split; [done|]. split; [exact Hdl2|]. done.
Qed.

Lemma failed_download_keeps_its_name_witness :
  let dl := (λ _ _ : string, Some "NETWORK_FAILED"%string) in
  let url1 := "https://a.example/img/photo.jpg"%string in
  let url2 := "https://b.example/other/photo.jpg?v=2"%string in
  let between := ["https://a.example/img/cat.png"%string] in
  let st := initial_state in
  ∃ name1 st1 st2 out name2 st3 k,
    downloadFile dl url1 st
      = Some (result_of dl url1 name1, st1, [DownloadsDownload url1 (stored_as name1)]) ∧
    (∀ msg, dl url1 (stored_as name1) = Some msg →
       result_of dl url1 name1 = Failure url1 msg) ∧
    downloadedFiles st1 !! name1 = Some true ∧
    download_all dl between st1 = Some (st2, out) ∧
    downloadedFiles st2 !! name1 = Some true ∧
    downloadFile dl url2 st2
      = Some (result_of dl url2 name2, st3, [DownloadsDownload url2 (stored_as name2)]) ∧
    name2 ≠ name1 ∧
    (1 ≤ k)%nat ∧ name2 = suffixed (candidate url2) k.
Proof.
  apply (failed_download_keeps_its_name (λ _ _ : string, Some "NETWORK_FAILED"%string)
           "https://a.example/img/photo.jpg" "https://b.example/other/photo.jpg?v=2"
           ["https://a.example/img/cat.png"%string] initial_state).
  reflexivity.
Defined.

Example failed_then_same_name :
  let dl := (λ _ _ : string, Some "NETWORK_FAILED"%string) in
  ∃ st1 st2,
    downloadFile dl "https://a.example/img/photo.jpg" initial_state
      = Some (Failure "https://a.example/img/photo.jpg" "NETWORK_FAILED", st1,
              [DownloadsDownload "https://a.example/img/photo.jpg" "scraped_images/photo.jpg"]) ∧
    downloadFile dl "https://b.example/other/photo.jpg?v=2" st1
      = Some (Failure "https://b.example/other/photo.jpg?v=2" "NETWORK_FAILED", st2,
              [DownloadsDownload "https://b.example/other/photo.jpg?v=2"
                 "scraped_images/photo_1.jpg"]).
Proof. eexists _, _. split; vm_compute; reflexivity. Qed.

(** * Further properties *)

#[local] Set Warnings "-clear-no-such-hyp".


Lemma download_requests_of_trace dl (urls names : list string) :
  length names = length urls →
  omap download_request (flat_map (download_trace dl) (zip urls names))
  = zip urls (stored_as <$> names).
Proof.
  revert names. induction urls as [|url urls IH]; intros [|name names] Hlen;
    simpl in *; try done; try lia.
  rewrite <- IH by lia.
  destruct (dl url (stored_as name)); reflexivity.
Qed.

Section RunFacts.

Variable dl : string -> string -> option string.

(** The download loop in full: the names it claims are new and distinct,
    and besides them it changes nothing. *)
Lemma download_all_names urls st :
  ∃ names st',
    download_all dl urls st = Some (st', flat_map (download_trace dl) (zip urls names)) ∧
    length names = length urls ∧
    NoDup names ∧
    Forall (λ n, downloadedFiles st !! n ≠ Some true) names ∧
    (∀ n, downloadedFiles st' !! n = Some true ↔
          downloadedFiles st !! n = Some true ∨ n ∈ names) ∧
    running st' = running st ∧ results st' = results st ∧
    currentPage st' = currentPage st ∧ lastScrapedHeight st' = lastScrapedHeight st.
Proof.
  revert st. induction urls as [|url urls IH]; intros st.
  - exists [], st. simpl. repeat split; try done; try constructor; set_solver.
  - destruct (downloadFile_result dl url st) as (name & Hclaim & Hdl).
    destruct (claim_result url (downloadedFiles st)) as (name' & Hclaim' & Hfalsy & _).
    rewrite Hclaim in Hclaim'. injection Hclaim' as <- _.
    apply falsy_not_recorded in Hfalsy.
    destruct (IH (set_downloadedFiles (<[name := true]> (downloadedFiles st)) st))
      as (names & st' & Hall & Hlen & Hnodup & Hnew & Hrec & Hrun & Hres & Hpage & Hheight).
    simpl in Hnew, Hrec.
    assert (∀ n, <[name := true]> (downloadedFiles st) !! n = Some true ↔
                 downloadedFiles st !! n = Some true ∨ n = name) as Hins.
    { intros n. destruct (decide (name = n)) as [->|Hne].
      - rewrite lookup_insert_eq. naive_solver.
      - rewrite lookup_insert_ne by done. naive_solver. }
    exists (name :: names), st'. split; [|split; [|split; [|split; [|split]]]].
    + simpl. rewrite Hdl. simpl. rewrite Hall. simpl.
      unfold result_of. by destruct (dl url (stored_as name)).
    + simpl. by rewrite Hlen.
    + constructor; [|done]. intros Hin.
      rewrite Forall_forall in Hnew. apply (Hnew _ Hin).
      by rewrite lookup_insert_eq.
    + constructor; [done|].
      eapply Forall_impl; [exact Hnew|]. intros n Hn Hst. apply Hn.
      apply Hins. by left.
    + intros n. rewrite Hrec, Hins, elem_of_cons. naive_solver.
    + done.
Qed.


Lemma count_effects_app f out1 out2 :
  count_effects f (out1 ++ out2) = (count_effects f out1 + count_effects f out2)%nat.
Proof. unfold count_effects. by rewrite filter_app, length_app. Qed.

Lemma count_effects_downloads f urls names :
  (∀ u p, f (DownloadsDownload u p) = false) →
  (∀ u e, f (ErrorFailedDownload u e) = false) →
  count_effects f (flat_map (download_trace dl) (zip urls names)) = 0%nat.
Proof.
  intros Hd He. unfold count_effects.
  induction (zip urls names) as [|[url name] l IH]; [done|].
  simpl. destruct (dl url (stored_as name)); simpl;
    rewrite filter_cons_False by (by rewrite Hd);
    rewrite ?filter_cons_False by (by rewrite He); exact IH.
Qed.

(** What one message does. *)
Lemma onMessage_facts m st :
  ∃ names st' out,
    onMessage dl m st = Some (st', out) ∧
    omap download_request out = zip (thumbnails (payload m)) (stored_as <$> names) ∧
    length names = length (thumbnails (payload m)) ∧
    NoDup names ∧
    Forall (λ n, downloadedFiles st !! n ≠ Some true) names ∧
    (∀ n, downloadedFiles st' !! n = Some true ↔
          downloadedFiles st !! n = Some true ∨ n ∈ names) ∧
    thumbnails (results st') = thumbnails (results st) ++ thumbnails (payload m) ∧
    destinations (results st') = destinations (results st) ++ destinations (payload m) ∧
    currentPage st' = currentPage st ∧ lastScrapedHeight st' = lastScrapedHeight st ∧
    running st' = (if is_start m then true else if is_complete m then false else running st) ∧
    count_effects is_begin out = (if is_start m && negb (running st) then 1 else 0)%nat ∧
    count_effects is_advance out = (if is_payload m then 1 else 0)%nat.
Proof.
  destruct m as [|data| |action].
  - exists [], (set_running true st), (if running st then [] else [TabsSendMessage ScrapePage]).
    simpl. destruct (running st) eqn:Hrun; simpl;
      repeat split; try done; try constructor; rewrite ?app_nil_r; try set_solver.
    by destruct st; simpl in *; subst.
  - destruct (download_all_names data.(thumbnails) (push_results data st))
      as (names & st' & Hall & Hlen & Hnodup & Hnew & Hrec & Hrun & Hres & Hpage & Hheight).
    eexists names, st', _. simpl. rewrite Hall. simpl.
    split; [done|]. split.
    { change (LogReceived data :: ?l) with ([LogReceived data] ++ l).
      rewrite !omap_app, download_requests_of_trace by done. simpl. by rewrite app_nil_r. }
    rewrite Hres. simpl. repeat split; try done.
    + apply Hrec.
    + apply Hrec.
    + change (LogReceived data :: ?l) with ([LogReceived data] ++ l).
      rewrite !count_effects_app, count_effects_downloads by done. done.
    + change (LogReceived data :: ?l) with ([LogReceived data] ++ l).
      rewrite !count_effects_app, count_effects_downloads by done. done.
  - exists [], (set_running false st). eexists. simpl.
    repeat split; try done; try constructor; rewrite ?app_nil_r; try set_solver.
  - exists [], st. eexists. simpl.
    repeat split; try done; try constructor; rewrite ?app_nil_r; try set_solver.
Qed.

(** What a sequence of messages does. *)
Lemma run_facts ms : ∀ st,
  ∃ names st' out,
    run dl ms st = Some (st', out) ∧
    omap download_request out = zip (all_thumbnails ms) (stored_as <$> names) ∧
    length names = length (all_thumbnails ms) ∧
    NoDup names ∧
    Forall (λ n, downloadedFiles st !! n ≠ Some true) names ∧
    (∀ n, downloadedFiles st' !! n = Some true ↔
          downloadedFiles st !! n = Some true ∨ n ∈ names) ∧
    thumbnails (results st') = thumbnails (results st) ++ all_thumbnails ms ∧
    destinations (results st') = destinations (results st) ++ all_destinations ms ∧
    currentPage st' = currentPage st ∧ lastScrapedHeight st' = lastScrapedHeight st ∧
    (count_effects is_begin out
       ≤ (if running st then 0 else 1) + count_messages is_complete ms)%nat ∧
    count_effects is_advance out = count_messages is_payload ms.
Proof.
  induction ms as [|m ms IH]; intros st.
  - exists [], st, []. simpl. rewrite !app_nil_r.
    repeat split; try done; try constructor; try set_solver.
    unfold count_effects. simpl. lia.
  - destruct (onMessage_facts m st)
      as (names1 & st1 & out1 & Hmsg & Hreq1 & Hlen1 & Hnodup1 & Hnew1 & Hrec1
          & Hth1 & Hde1 & Hpage1 & Hheight1 & Hrun1 & Hbegin1 & Hadv1).
    destruct (IH st1)
      as (names2 & st2 & out2 & Hrun & Hreq2 & Hlen2 & Hnodup2 & Hnew2 & Hrec2
          & Hth2 & Hde2 & Hpage2 & Hheight2 & Hbegin2 & Hadv2).
    exists (names1 ++ names2), st2, (out1 ++ out2).
    split; [simpl; by rewrite Hmsg; simpl; rewrite Hrun|].
    split.
    { rewrite omap_app, Hreq1, Hreq2. unfold all_thumbnails. simpl.
      rewrite fmap_app, zip_with_app; [done|]. by rewrite length_fmap. }
    split; [unfold all_thumbnails in *; simpl; rewrite !length_app; lia|].
    split.
    { apply NoDup_app. split; [done|]. split; [|done].
      intros n Hn1 Hn2. rewrite Forall_forall in Hnew2.
      apply (Hnew2 _ Hn2), Hrec1. by right. }
    split.
    { apply Forall_app. split; [done|].
      eapply Forall_impl; [exact Hnew2|]. intros n Hn Hst. apply Hn, Hrec1. by left. }
    split.
    { intros n. rewrite Hrec2, Hrec1, elem_of_app. naive_solver. }
    split; [rewrite Hth2, Hth1; unfold all_thumbnails; simpl; by rewrite app_assoc|].
    split; [rewrite Hde2, Hde1; unfold all_destinations; simpl; by rewrite app_assoc|].
    split; [congruence|]. split; [congruence|].
    split.
    + rewrite count_effects_app, Hbegin1. rewrite Hrun1 in Hbegin2.
      unfold count_messages in *. simpl.
      destruct m; simpl in *; destruct (running st); simpl in *;
        rewrite ?filter_cons_True, ?filter_cons_False by done; simpl; lia.
    + rewrite count_effects_app, Hadv1, Hadv2. unfold count_messages. simpl.
      destruct m; simpl;
        rewrite ?filter_cons_True, ?filter_cons_False by done; simpl; lia.
Qed.

Lemma download_all_set_running b urls : ∀ st,
  download_all dl urls (set_running b st)
  = (λ r, (set_running b r.1, r.2)) <$> download_all dl urls st.
Proof.
  induction urls as [|url urls IH]; intros st; [done|].
  destruct (downloadFile_result dl url st) as (name & Hclaim & Hdl).
  destruct (downloadFile_result dl url (set_running b st)) as (name' & Hclaim' & Hdl').
  simpl in Hclaim'. rewrite Hclaim in Hclaim'. injection Hclaim' as <- _.
  simpl. rewrite Hdl, Hdl'. simpl.
  change (set_downloadedFiles ?f (set_running b st))
    with (set_running b (set_downloadedFiles f st)).
  rewrite IH. by destruct (download_all dl urls _) as [[st' out]|].
Qed.

End RunFacts.


(** X2. Over any sequence of messages, [results] ends as what it was
    followed by the lists of every payload, in arrival order: neither
    [startScrape] nor [scrapeComplete] empties or reorders it. *)
Theorem results_accumulate_in_arrival_order dl ms st :
  ∃ st' out,
    run dl ms st = Some (st', out) ∧
    thumbnails (results st') = thumbnails (results st) ++ all_thumbnails ms ∧
    destinations (results st') = destinations (results st) ++ all_destinations ms.
Proof.
  destruct (run_facts dl ms st) as (names & st' & out & Hrun & _ & _ & _ & _ & _ & Hth & Hde & _).
  by exists st', out.
Qed.

(** X3. Over any sequence of messages, the names recorded in
    [downloadedFiles] are those recorded before together with one new name
    per thumbnail received, all distinct: a name is never dropped. *)
Theorem recorded_names_grow_by_one_per_thumbnail dl ms st :
  ∃ st' out names,
    run dl ms st = Some (st', out) ∧
    length names = length (all_thumbnails ms) ∧
    NoDup names ∧
    Forall (λ n, downloadedFiles st !! n ≠ Some true) names ∧
    ∀ n, downloadedFiles st' !! n = Some true ↔
         downloadedFiles st !! n = Some true ∨ n ∈ names.
Proof.
  destruct (run_facts dl ms st)
    as (names & st' & out & Hrun & _ & Hlen & Hnodup & Hnew & Hrec & _).
  by exists st', out, names.
Qed.

(** X4. No message changes [currentPage] or [lastScrapedHeight]: the two
    fields are declared and never written. *)
Theorem page_counters_are_never_written dl ms st :
  ∃ st' out,
    run dl ms st = Some (st', out) ∧
    currentPage st' = currentPage st ∧
    lastScrapedHeight st' = lastScrapedHeight st.
Proof.
  destruct (run_facts dl ms st)
    as (names & st' & out & Hrun & _ & _ & _ & _ & _ & _ & _ & Hpage & Hheight & _).
  by exists st', out.
Qed.

(** X5. The [scrapePage] directive is sent at most once per
    [scrapeComplete] received, plus once if the coordinator was idle at the
    beginning: further [startScrape] messages during a run send nothing. *)
Theorem begins_are_bounded_by_completions dl ms st :
  ∃ st' out,
    run dl ms st = Some (st', out) ∧
    (count_effects is_begin out
       ≤ (if running st then 0 else 1) + count_messages is_complete ms)%nat.
Proof.
  destruct (run_facts dl ms st)
    as (names & st' & out & Hrun & _ & _ & _ & _ & _ & _ & _ & _ & _ & Hbegin & _).
  by exists st', out.
Qed.

(** X6. The [paginate] directive is sent exactly once per payload
    received, whatever else arrives and whether a run is on or not. *)
Theorem one_advance_per_payload dl ms st :
  ∃ st' out,
    run dl ms st = Some (st', out) ∧
    count_effects is_advance out = count_messages is_payload ms.
Proof.
  destruct (run_facts dl ms st)
    as (names & st' & out & Hrun & _ & _ & _ & _ & _ & _ & _ & _ & _ & _ & Hadv).
  by exists st', out.
Qed.

(** X7. The [scrapedData] branch does not look at [running]: with the
    flag set either way the handler emits the same effects and reaches the
    same state, up to the flag. *)
Theorem payload_handling_ignores_running dl data b st :
  onMessage dl (ScrapedData data) (set_running b st)
  = (λ r, (set_running b r.1, r.2)) <$> onMessage dl (ScrapedData data) st.
Proof.
  unfold onMessage.
  change (push_results data (set_running b st)) with (set_running b (push_results data st)).
  rewrite download_all_set_running.
  by destruct (download_all dl (thumbnails data) (push_results data st)) as [[st' out]|].
Qed.

(** ** Further facts about strings *)

Lemma split_pieces_absent c s d :
  occurs c s = false → Forall (λ p, occurs c p = false) (JS.split s d).
Proof.
  induction s as [|x s IH]; simpl; intros H.
  - by repeat constructor.
  - apply orb_false_iff in H as [Hx Hs]. specialize (IH Hs).
    destruct (decide (x = d)).
    + by constructor.
    + destruct (JS.split s d) as [|p ps]; [by repeat constructor; simpl; rewrite Hx|].
      apply Forall_cons in IH as [Hp Hps].
      constructor; [|done]. simpl. by rewrite Hx, Hp.
Qed.

Lemma split_head_has_no_separator s c p ps :
  JS.split s c = p :: ps → occurs c p = false.
Proof.
  revert p ps. induction s as [|x s IH]; simpl; intros p ps H.
  - by injection H as <- _.
  - destruct (decide (x = c)) as [->|Hne].
    + by injection H as <- _.
    + destruct (JS.split s c) as [|q qs] eqn:Hs.
      * injection H as <- _. simpl. by rewrite bool_decide_eq_false_2.
      * injection H as <- _. simpl. rewrite bool_decide_eq_false_2 by done.
        by apply (IH q qs).
Qed.

(** A string in which a character occurs splits at its last occurrence. *)
Lemma split_at_last c s :
  occurs c s = true → ∃ a rest, s = a +:+ String c rest ∧ occurs c rest = false.
Proof.
  induction s as [|x s IH]; simpl; [done|]. intros H.
  destruct (occurs c s) eqn:Hs.
  - destruct (IH eq_refl) as (a & rest & -> & Hrest).
    by exists (String x a), rest.
  - rewrite orb_false_r in H. apply bool_decide_eq_true in H as ->.
    by exists ""%string, s.
Qed.

Lemma after_last_has_none c s :
  occurs c (JS.substring s (JS.lastIndexOf s c + 1)) = false.
Proof.
  destruct (occurs c s) eqn:Hs.
  - destruct (split_at_last c s Hs) as (a & rest & -> & Hrest).
    by rewrite substring_after_last.
  - unfold JS.substring, JS.lastIndexOf. by rewrite lastIndexOf_from_absent.
Qed.

(** Decimal numerals hold digits only. *)
Lemma occurs_pretty_N_go c x : ∀ s,
  not_a_digit c → occurs c (pretty_N_go x s) = occurs c s.
Proof.
  induction (N.lt_wf_0 x) as [x _ IH]; intros s Hc.
  assert (x = 0 ∨ 0 < x)%N as [->|Hx] by lia; [by rewrite pretty_N_go_0|].
  rewrite pretty_N_go_step by done.
  rewrite IH by (done || by apply N.div_lt).
  simpl. by rewrite bool_decide_eq_false_2 by apply Hc.
Qed.

Lemma occurs_pretty_nat c (k : nat) : not_a_digit c → occurs c (pretty k) = false.
Proof.
  intros Hc. unfold pretty, pretty_nat, pretty, pretty_N.
  case_decide.
  - simpl. rewrite bool_decide_eq_false_2; [done|]. apply (Hc 0%N).
  - by rewrite occurs_pretty_N_go.
Qed.

Lemma slash_not_a_digit : not_a_digit "/".
Proof. intros d. unfold pretty_N_char. by repeat case_match. Qed.

Lemma question_mark_not_a_digit : not_a_digit "?".
Proof. intros d. unfold pretty_N_char. by repeat case_match. Qed.

(** ** Further facts about the download gate *)

Lemma candidate_has_no_slash url : occurs "/" (candidate url) = false.
Proof.
  unfold candidate.
  pose proof (split_pieces_absent "/" _ "?" (after_last_has_none "/" url)) as Hall.
  destruct (split_nonempty (JS.substring url (JS.lastIndexOf url "/" + 1)) "?")
    as (p & ps & Hsplit).
  rewrite Hsplit in *. simpl. by apply Forall_cons in Hall as [? _].
Qed.

Lemma candidate_has_no_question_mark url : occurs "?" (candidate url) = false.
Proof.
  unfold candidate.
  destruct (split_nonempty (JS.substring url (JS.lastIndexOf url "/" + 1)) "?")
    as (p & ps & Hsplit).
  rewrite Hsplit. simpl. by eapply split_head_has_no_separator.
Qed.

Lemma occurs_interpolate_lookup c (l : list string) i :
  Forall (λ p, occurs c p = false) l → occurs c "undefined" = false →
  occurs c (JS.interpolate (l !! i)) = false.
Proof.
  intros Hall Hundef. destruct (l !! i) as [p|] eqn:Hi; cbn [JS.interpolate]; [|done].
  rewrite Forall_lookup in Hall. by apply (Hall i).
Qed.

Lemma suffixed_keeps_out c o k :
  not_a_digit c → c ≠ "_"%char → c ≠ "."%char → occurs c "undefined" = false →
  occurs c o = false → occurs c (suffixed o k) = false.
Proof.
  intros Hdigit Hu Hd Hundef Ho. unfold suffixed.
  pose proof (split_pieces_absent c o "." Ho) as Hall.
  rewrite !occurs_app, !occurs_interpolate_lookup, occurs_pretty_nat by done.
  cbn [occurs]. by rewrite !bool_decide_eq_false_2 by done.
Qed.

(** X8. Whatever the URL and whatever is recorded, the name claimed
    holds neither a slash nor a question mark: the path of a download stays
    directly under [scraped_images/]. *)
Theorem claimed_name_has_no_separator url files :
  ∃ name,
    claim url files = Some (name, <[name := true]> files) ∧
    occurs "/" name = false ∧ occurs "?" name = false.
Proof.
  destruct (claim_result url files) as (name & Hclaim & _ & Hcase).
  exists name. split; [done|].
  destruct Hcase as [[_ ->]|(_ & k & _ & -> & _)].
  - by rewrite candidate_has_no_slash, candidate_has_no_question_mark.
  - rewrite !suffixed_keeps_out;
      auto using slash_not_a_digit, question_mark_not_a_digit,
                 candidate_has_no_slash, candidate_has_no_question_mark.
Qed.

Lemma split_at_first c s :
  occurs c s = true → ∃ a rest, s = a +:+ String c rest ∧ occurs c a = false.
Proof.
  induction s as [|x s IH]; simpl; [done|]. intros H.
  destruct (decide (x = c)) as [->|Hne].
  - by exists ""%string, s.
  - rewrite bool_decide_eq_false_2 in H by done. simpl in H.
    destruct (IH H) as (a & rest & -> & Ha).
    exists (String x a), rest. split; [done|]. simpl.
    by rewrite bool_decide_eq_false_2.
Qed.

(** A suffixed name is never the name it was built from. *)
Lemma suffixed_ne_self o k : suffixed o k ≠ o.
Proof.
  destruct (occurs "." o) eqn:Hdot.
  - destruct (split_at_first "." o Hdot) as (a & rest & -> & Ha).
    unfold suffixed. rewrite split_app by done. simpl.
    intros H. apply (inj (String.append a)) in H. discriminate.
  - rewrite suffixed_dotless by done. intros H.
    apply (f_equal String.length) in H. rewrite !append_length in H.
    simpl in H. lia.
Qed.

Lemma truthy_entry_insert_other files k n :
  truthy_entry files k = true → truthy_entry (<[n := true]> files) k = true.
Proof.
  unfold truthy_entry. destruct (decide (n = k)) as [->|Hne].
  - by rewrite lookup_insert_eq.
  - by rewrite lookup_insert_ne.
Qed.

Section NumberedClaims.

Variable dl : string -> string -> option string.

(** Once the candidate and the names numbered below [j] are taken, the
    following claims of the same candidate take the numbers from [j] on. *)
Lemma numbered_claims_continue c urls : ∀ j st,
  Forall (λ u, candidate u = c) urls →
  (1 ≤ j)%nat →
  truthy_entry (downloadedFiles st) c = true →
  (∀ i, (1 ≤ i < j)%nat → downloadedFiles st !! suffixed c i = Some true) →
  (∀ i, (j ≤ i < j + length urls)%nat → downloadedFiles st !! suffixed c i ≠ Some true) →
  ∃ st',
    download_all dl urls st
    = Some (st', flat_map (download_trace dl)
                   (zip urls (suffixed c <$> seq j (length urls)))).
Proof.
  induction urls as [|url urls IH]; intros j st Hurls Hj Hc Hbelow Hfree.
  - by exists st.
  - apply Forall_cons in Hurls as [Hurl Hurls]. simpl in Hfree.
    assert (claim url (downloadedFiles st)
            = Some (suffixed c j, <[suffixed c j := true]> (downloadedFiles st))) as Hclaim.
    { rewrite <- Hurl. apply claim_first_free; rewrite ?Hurl; auto.
      apply Hfree. lia. }
    destruct (downloadFile_result dl url st) as (name & Hclaim' & Hdl).
    rewrite Hclaim in Hclaim'. injection Hclaim' as <- _.
    destruct (IH (S j) (set_downloadedFiles
                          (<[suffixed c j := true]> (downloadedFiles st)) st))
      as (st' & Hall); try done; try lia.
    + by apply truthy_entry_insert_other.
    + intros i Hi. simpl. destruct (decide (i = j)) as [->|Hne].
      * by rewrite lookup_insert_eq.
      * rewrite lookup_insert_ne; [apply Hbelow; lia|].
        intros Heq. by apply suffixed_inj in Heq.
    + intros i Hi. simpl. rewrite lookup_insert_ne; [apply Hfree; lia|].
      intros Heq. apply suffixed_inj in Heq. lia.
    + exists st'. simpl. rewrite Hdl. simpl. rewrite Hall. simpl.
      unfold result_of. by destruct (dl url (stored_as (suffixed c j))).
Qed.

End NumberedClaims.

(** X9. Downloading in a row URLs that share one candidate name, when
    the candidate and its first suffixed names are free, stores the first
    under the candidate and the [i]-th next under the candidate suffixed
    with [i], in order. *)
Theorem repeated_claims_are_numbered_in_order dl c url urls st :
  Forall (λ u, candidate u = c) (url :: urls) →
  truthy_entry (downloadedFiles st) c = false →
  (∀ i, (1 ≤ i ≤ length urls)%nat → downloadedFiles st !! suffixed c i ≠ Some true) →
  ∃ st',
    download_all dl (url :: urls) st
    = Some (st', flat_map (download_trace dl)
                   (zip (url :: urls) (c :: (suffixed c <$> seq 1 (length urls))))).
Proof.
  intros Hurls Hc Hfree. apply Forall_cons in Hurls as [Hurl Hurls].
  destruct (downloadFile_result dl url st) as (name & Hclaim' & Hdl).
  rewrite claim_fresh in Hclaim' by (by rewrite Hurl). rewrite Hurl in Hclaim'.
  injection Hclaim' as <-.
  destruct (numbered_claims_continue dl c urls 1
              (set_downloadedFiles (<[c := true]> (downloadedFiles st)) st))
    as (st' & Hall); try done.
  - unfold truthy_entry. simpl. by rewrite lookup_insert_eq.
  - intros i Hi. lia.
  - intros i Hi. simpl. rewrite lookup_insert_ne; [apply Hfree; lia|].
    intros Heq. symmetry in Heq. by apply suffixed_ne_self in Heq.
  - exists st'. simpl. rewrite Hdl. simpl. rewrite Hall. simpl.
    unfold result_of. by destruct (dl url (stored_as c)).
Qed.

Lemma repeated_claims_are_numbered_in_order_witness :
  let dl := (λ _ _ : string, None) in
  ∃ st',
    download_all dl ["https://a.example/x/logo.png"; "https://b.example/logo.png?v=3";
                     "https://c.example/y/z/logo.png"]%string initial_state
    = Some (st', flat_map (download_trace dl)
                   (zip ["https://a.example/x/logo.png"; "https://b.example/logo.png?v=3";
                         "https://c.example/y/z/logo.png"]%string
                        ("logo.png"%string :: (suffixed "logo.png" <$> seq 1 2)))).
Proof.
  apply (repeated_claims_are_numbered_in_order (λ _ _ : string, None) "logo.png"
           "https://a.example/x/logo.png"
           ["https://b.example/logo.png?v=3"; "https://c.example/y/z/logo.png"]%string
           initial_state).
  - repeat constructor.
  - reflexivity.
  - intros i Hi. simpl. by rewrite lookup_empty.
Defined.

(** X10. A URL ending in a slash has the empty candidate: the first such
    download is stored under the empty name, and the next one under
    [_1.undefined]. *)
Theorem trailing_slash_claims_the_empty_name base1 base2 files :
  files !! ""%string ≠ Some true →
  files !! "_1.undefined"%string ≠ Some true →
  candidate (base1 +:+ "/") = ""%string ∧
  ∃ files1 files2,
    claim (base1 +:+ "/") files = Some (""%string, files1) ∧
    claim (base2 +:+ "/") files1 = Some ("_1.undefined"%string, files2).
Proof.
  intros H0 H1.
  assert (∀ base, candidate (base +:+ "/") = ""%string) as Hcand.
  { intros base. unfold candidate.
    change (base +:+ "/") with (base +:+ String "/" "").
    by rewrite substring_after_last. }
  split; [done|]. eexists _, _. split.
  - rewrite claim_fresh; rewrite Hcand; [done|]. by apply truthy_not_recorded.
  - rewrite (claim_first_free _ _ 1); rewrite ?Hcand.
    + done.
    + apply truthy_recorded. by rewrite lookup_insert_eq.
    + lia.
    + intros j Hj. lia.
    + rewrite lookup_insert_ne by done. exact H1.
Qed.

Lemma trailing_slash_claims_the_empty_name_witness :
  candidate ("https://example.com/gallery" +:+ "/") = ""%string ∧
  ∃ files1 files2,
    claim ("https://example.com/gallery" +:+ "/") ∅ = Some (""%string, files1) ∧
    claim ("https://example.com/albums/2024" +:+ "/") files1
      = Some ("_1.undefined"%string, files2).
Proof.
  apply (trailing_slash_claims_the_empty_name
           "https://example.com/gallery" "https://example.com/albums/2024" ∅);
    by rewrite lookup_empty.
Defined.

(** ** Further facts about the page agent *)

Lemma scroll_rounds_shift p n : ∀ j,
  flat_map (scroll_round {| readyPolls := readyPolls p; document := document p;
                            heights := heights p; scrolled := S (scrolled p) |}) (seq j n)
  = flat_map (scroll_round p) (seq (S j) n).
Proof.
  induction n as [|n IH]; intros j; [done|].
  cbn [seq flat_map]. rewrite IH. f_equal.
  unfold scroll_round. cbn [heights scrolled].
  by replace (S (scrolled p) + j)%nat with (scrolled p + S j)%nat by lia.
Qed.

(** Whatever the loop returns, it returns at the first comparison that
    shows no growth, after one scroll per comparison. *)
Lemma lazy_load_loop_exact fuel : ∀ p p' out,
  lazy_load_loop fuel true p = Some (p', out) →
  ∃ n, (n < fuel)%nat ∧
    (∀ i, (i < n)%nat → heights p (scrolled p + i) < heights p (scrolled p + i + 1)) ∧
    heights p (scrolled p + n + 1) <= heights p (scrolled p + n) ∧
    p' = after_cycles (n + 1) p ∧
    out = flat_map (scroll_round p) (seq 0 (n + 1)).
Proof.
  induction fuel as [|fuel IH]; intros p p' out; [done|].
  rewrite lazy_load_loop_unfold. unfold scrollAndCheck, scrollHeight. cbn [scrolled heights].
  destruct (Z.ltb_spec (heights p (scrolled p)) (heights p (S (scrolled p)))) as [Hlt|Hge].
  - destruct (lazy_load_loop fuel true _) as [[p1 out1]|] eqn:Hloop; [|done].
    simpl. intros [= <- <-].
    apply IH in Hloop as (n & Hn & Hgrow & Hstable & -> & ->).
    cbn [scrolled heights] in Hgrow, Hstable.
    exists (S n). split; [lia|]. split; [|split; [|split]].
    + intros [|i] Hi.
      * by rewrite Nat.add_0_r, Nat.add_1_r.
      * specialize (Hgrow i ltac:(lia)).
        by replace (scrolled p + S i)%nat with (S (scrolled p) + i)%nat by lia.
    + by replace (scrolled p + S n)%nat with (S (scrolled p) + n)%nat by lia.
    + by rewrite after_cycles_S.
    + rewrite scroll_rounds_shift. change (S n + 1)%nat with (S (n + 1)).
      cbn [seq flat_map]. unfold scroll_round at 2. by rewrite Nat.add_0_r.
  - rewrite lazy_load_loop_unfold. simpl. intros [= <- <-].
    exists 0%nat. split; [lia|]. split; [intros i Hi; lia|]. split; [|split].
    + by rewrite Nat.add_0_r, Nat.add_1_r.
    + unfold after_cycles. f_equal. lia.
    + unfold scroll_round. simpl. by rewrite Nat.add_0_r.
Qed.




Lemma sent_messages_app out1 out2 :
  sent_messages (out1 ++ out2) = sent_messages out1 ++ sent_messages out2.
Proof. apply omap_app. Qed.

Lemma sent_messages_poll_ready polls : sent_messages (poll_ready polls) = [].
Proof. induction polls as [|n IH]; [done|]. exact IH. Qed.

Lemma sent_messages_scroll_rounds p l : sent_messages (flat_map (scroll_round p) l) = [].
Proof. induction l as [|i l IH]; [done|]. exact IH. Qed.

(** [scrape] in full, on a page whose height settles. *)
Lemma scrape_result fuel p p' out :
  scrape fuel p = Some (p', out) →
  ∃ n, (n < fuel)%nat ∧
    (∀ i, (i < n)%nat → heights p (scrolled p + i) < heights p (scrolled p + i + 1)) ∧
    heights p (scrolled p + n + 1) <= heights p (scrolled p + n) ∧
    document p' = document p ∧ readyPolls p' = 0%nat ∧
    scrolled p' = (scrolled p + n + 1)%nat ∧
    out = [AgentLog "Starting scrape process on page..."]
          ++ poll_ready (readyPolls p) ++ [Wait 2000]
          ++ flat_map (scroll_round p) (seq 0 (n + 1))
          ++ [AgentLogData (extractData (document p));
              RuntimeSendMessage (ScrapedData (extractData (document p)))].
Proof.
  unfold scrape, waitForPageLoad.
  destruct (lazy_load_loop fuel true _) as [[p1 out1]|] eqn:Hloop; [|done].
  simpl. intros [= <- <-].
  apply lazy_load_loop_exact in Hloop as (n & Hn & Hgrow & Hstable & -> & ->).
  cbn [scrolled heights] in Hgrow, Hstable.
  exists n. repeat split; try done.
  - simpl. lia.
  - by rewrite <- !app_assoc.
Qed.

(** What [scrape] says to the coordinator, and what it leaves of the page. *)
Lemma scrape_messages fuel p p' out :
  scrape fuel p = Some (p', out) →
  sent_messages out = [ScrapedData (extractData (document p))] ∧
  document p' = document p.
Proof.
  intros H. apply scrape_result in H as (n & _ & _ & _ & Hdoc & _ & _ & ->).
  split; [|done].
  by rewrite !sent_messages_app, sent_messages_poll_ready, sent_messages_scroll_rounds.
Qed.

(** X11. Whenever the lazy-load loop returns, the height grew at every
    comparison but the last, and what it did is exactly one scroll to the
    height measured and one wait of 2000 ms per comparison. *)
Theorem lazy_load_trace_is_one_scroll_per_comparison fuel p p' out :
  lazy_load_loop fuel true p = Some (p', out) →
  ∃ n,
    (∀ i, (i < n)%nat → heights p (scrolled p + i) < heights p (scrolled p + i + 1)) ∧
    heights p (scrolled p + n + 1) <= heights p (scrolled p + n) ∧
    p' = after_cycles (n + 1) p ∧
    out = flat_map (scroll_round p) (seq 0 (n + 1)).
Proof.
  intros H. apply lazy_load_loop_exact in H as (n & _ & ? & ? & ? & ?). by exists n.
Qed.

Lemma lazy_load_trace_is_one_scroll_per_comparison_witness :
  ∃ n,
    (∀ i, (i < n)%nat →
       heights (simulated_page 0 empty_document [300; 700; 950; 950]) (0 + i)
       < heights (simulated_page 0 empty_document [300; 700; 950; 950]) (0 + i + 1)) ∧
    heights (simulated_page 0 empty_document [300; 700; 950; 950]) (0 + n + 1)
      <= heights (simulated_page 0 empty_document [300; 700; 950; 950]) (0 + n) ∧
    after_cycles 3 (simulated_page 0 empty_document [300; 700; 950; 950])
      = after_cycles (n + 1) (simulated_page 0 empty_document [300; 700; 950; 950]) ∧
    [ScrollTo 0 300; Wait 2000; ScrollTo 0 700; Wait 2000; ScrollTo 0 950; Wait 2000]
      = flat_map (scroll_round (simulated_page 0 empty_document [300; 700; 950; 950]))
          (seq 0 (n + 1)).
Proof.
  apply (lazy_load_trace_is_one_scroll_per_comparison 5
           (simulated_page 0 empty_document [300; 700; 950; 950])).
  reflexivity.
Defined.







Lemma querySelector_next_sound doc pos e :
  querySelector_next root_position doc = Some (pos, e) →
  (pos, e) ∈ elements_in_order root_position doc ∧ is_next_control (pos, e) = true.
Proof.
  rewrite querySelector_next_first. intros H.
  apply head_Some_elem_of in H. apply list_elem_of_filter in H as [? ?]. done.
Qed.

Lemma querySelector_next_none doc :
  querySelector_next root_position doc = None ↔
  Forall (λ pe, is_next_control pe = false) (elements_in_order root_position doc).
Proof.
  split; [|apply no_match_is_none].
  rewrite querySelector_next_first. intros H. apply head_None in H.
  apply Forall_forall. intros pe Hpe.
  destruct (is_next_control pe) eqn:Hm; [|done].
  assert (pe ∈ filter (λ pe, is_next_control pe = true)
                 (elements_in_order root_position doc)) as Hin
    by (by apply list_elem_of_filter).
  rewrite H in Hin. by apply elem_of_nil in Hin.
Qed.

(** [paginate] by cases on the search for a next control. *)
Lemma paginate_cases after_click fuel p p' out :
  paginate after_click fuel p = Some (p', out) →
  (Forall (λ pe, is_next_control pe = false)
     (elements_in_order root_position (document p)) ∧
   p' = p ∧ sent_messages out = [ScrapeComplete])
  ∨
  (∃ pos e,
     (pos, e) ∈ elements_in_order root_position (document p) ∧
     is_next_control (pos, e) = true ∧
     take 2 out = [AgentLog "Found next page button. Clicking..."; Click (path pos)] ∧
     document p' = document (after_click p (path pos)) ∧
     sent_messages out = [ScrapedData (extractData (document (after_click p (path pos))))]).
Proof.
  unfold paginate.
  destruct (querySelector_next root_position (document p)) as [[pos e]|] eqn:Hq.
  - intros H. right. exists pos, e.
    apply querySelector_next_sound in Hq as [Hin Hm].
    split; [done|]. split; [done|].
    unfold waitForPageLoad in H. lazy beta iota zeta in H.
    destruct (scrape fuel _) as [[p1 out1]|] eqn:Hscrape; [|done].
    simpl in H. injection H as <- <-.
    pose proof (scrape_messages _ _ _ _ Hscrape) as (Hsent & Hdoc).
    split; [done|]. split; [by rewrite Hdoc|].
    change (sent_messages (?a :: ?b :: ?l)) with (sent_messages l).
    by rewrite sent_messages_app, sent_messages_app, sent_messages_poll_ready, Hsent.
  - intros [= <- <-]. left. by apply querySelector_next_none in Hq.
Qed.



Lemma directives_sent_downloads dl (l : list (string * string)) :
  directives_sent (flat_map (download_trace dl) l) = [].
Proof.
  induction l as [|[url name] l IH]; [done|].
  cbn [flat_map]. unfold directives_sent in *. rewrite omap_app, IH.
  unfold download_trace. by destruct (dl url (stored_as name)).
Qed.

(** X15. One round trip. What the page agent sends in answer to a
    directive is always handled by the coordinator, which either appends
    the payload of the agent's document and sends back exactly one
    [paginate], or (only in answer to [paginate]) ends the run and sends
    back nothing. *)
Theorem coordinator_answers_the_agent dl after_click fuel d p p' out st :
  onDirective after_click fuel d p = Some (p', out) →
  ∃ st' reply,
    run dl (sent_messages out) st = Some (st', reply) ∧
    ((directives_sent reply = [Paginate] ∧
      running st' = running st ∧
      thumbnails (results st')
        = thumbnails (results st) ++ thumbnails (extractData (document p')) ∧
      destinations (results st')
        = destinations (results st) ++ destinations (extractData (document p')))
     ∨
     (d = Paginate ∧ p' = p ∧
      directives_sent reply = [] ∧ running st' = false ∧ results st' = results st)).
Proof.
  intros H.
  assert (∀ doc, ∃ st' reply,
            run dl [ScrapedData (extractData doc)] st = Some (st', reply) ∧
            directives_sent reply = [Paginate] ∧
            running st' = running st ∧
            thumbnails (results st')
              = thumbnails (results st) ++ thumbnails (extractData doc) ∧
            destinations (results st')
              = destinations (results st) ++ destinations (extractData doc)) as Hpayload.
  { intros doc.
    destruct (onMessage_scrapedData dl (extractData doc) st)
      as (names & st' & _ & Hmsg & Hrun & Hres).
    eexists st', _. split; [cbn [run]; rewrite Hmsg; reflexivity|].
    split; [|by rewrite Hres].
    rewrite app_nil_r. unfold directives_sent.
    rewrite !omap_app. fold (directives_sent (flat_map (download_trace dl)
                                                (zip (thumbnails (extractData doc)) names))).
    by rewrite directives_sent_downloads. }
  destruct d; cbn [onDirective] in H.
  - pose proof (scrape_messages _ _ _ _ H) as (-> & Hdoc).
    destruct (Hpayload (document p)) as (st' & reply & ? & ? & ? & ? & ?).
    exists st', reply. split; [done|]. left. by rewrite Hdoc.
  - apply paginate_cases in H
      as [(_ & -> & ->)|(pos & e & _ & _ & _ & Hdoc & ->)].
    + eexists _, _. split; [reflexivity|]. right. by repeat split.
    + destruct (Hpayload (document (after_click p (path pos))))
        as (st' & reply & ? & ? & ? & ? & ?).
      exists st', reply. split; [done|]. left. by rewrite Hdoc.
Qed.

Lemma coordinator_answers_the_agent_witness :
  let dl := (λ _ _ : string, None) in
  let stay := (λ (p : page) (_ : list nat), p) in
  let start := simulated_page 1 three_images [500] in
  let loaded := after_cycles 1 (simulated_page 0 three_images [500]) in
  let out := [AgentLog "Starting scrape process on page..."; Wait 500; Wait 2000;
              ScrollTo 0 500; Wait 2000;
              AgentLogData (extractData three_images);
              RuntimeSendMessage (ScrapedData (extractData three_images))] in
  let st := set_running true initial_state in
  ∃ st' reply,
    run dl (sent_messages out) st = Some (st', reply) ∧
    ((directives_sent reply = [Paginate] ∧
      running st' = running st ∧
      thumbnails (results st')
        = thumbnails (results st) ++ thumbnails (extractData (document loaded)) ∧
      destinations (results st')
        = destinations (results st) ++ destinations (extractData (document loaded)))
     ∨
     (ScrapePage = Paginate ∧ loaded = start ∧
      directives_sent reply = [] ∧ running st' = false ∧ results st' = results st)).
Proof.
  apply (coordinator_answers_the_agent (λ _ _ : string, None)
           (λ (p : page) (_ : list nat), p) 1 ScrapePage
           (simulated_page 1 three_images [500])).
  reflexivity.
Defined.

(** ** Facts about [getFilenameFromUrl] *)

Lemma split_snoc a c rest :
  occurs c rest = false → JS.split (a +:+ String c rest) c = JS.split a c ++ [rest].
Proof.
  intros Hrest. induction a as [|x a IH].
  - simpl. rewrite decide_True by done. by rewrite split_head_absent.
  - rewrite append_cons. simpl. rewrite IH.
    destruct (decide (x = c)); [done|].
    destruct (split_nonempty a c) as (p & ps & ->). done.
Qed.

Lemma pop_snoc (l : list string) x : JSArray.pop (l ++ [x]) = (Some x, l).
Proof. unfold JSArray.pop. by rewrite last_snoc, removelast_last. Qed.

Lemma truthy_string_Some s : s ≠ ""%string → truthy_string (Some s) = true.
Proof. intros H. unfold truthy_string. by rewrite bool_decide_eq_false_2. Qed.

Lemma truthy_string_nonempty v :
  truthy_string v = true → ∃ s, v = Some s ∧ s ≠ ""%string.
Proof.
  destruct v as [s|]; [|done]. simpl. intros H. exists s. split; [done|].
  intros ->. done.
Qed.

Lemma popped_has_no_slash (l : list string) :
  Forall (λ p, occurs "/" p = false) l →
  ∀ s, (JSArray.pop l).1 = Some s → occurs "/" s = false.
Proof.
  intros Hall s Hs. unfold JSArray.pop in Hs. simpl in Hs.
  rewrite Forall_forall in Hall. apply Hall. by apply last_Some_elem_of.
Qed.

Lemma split_pieces_have_no_separator s c :
  Forall (λ p, occurs c p = false) (JS.split s c).
Proof.
  induction s as [|x s IH]; simpl.
  - by repeat constructor.
  - destruct (decide (x = c)) as [->|Hne]; [by constructor|].
    destruct (JS.split s c) as [|p ps]; simpl.
    + repeat constructor. simpl. by rewrite bool_decide_eq_false_2.
    + apply Forall_cons in IH as [Hp Hps]. constructor; [|done].
      simpl. by rewrite bool_decide_eq_false_2.
Qed.

Lemma removelast_Forall {A} (P : A → Prop) (l : list A) :
  Forall P l → Forall P (removelast l).
Proof.
  induction 1 as [|x l Hx Hl IH]; [constructor|].
  simpl. destruct l; [constructor|]. by constructor.
Qed.

Section GetFilenameFacts.

Variable URL_pathname : string -> option string.
Hypothesis pathname_has_no_query :
  ∀ url pathname, URL_pathname url = Some pathname → occurs "?" pathname = false.

Lemma getFilenameFromUrl_cases url :
  (getFilenameFromUrl URL_pathname url).1 = "unnamed_image.jpg"%string ∨
  ∃ pathname seg,
    URL_pathname url = Some pathname ∧ seg ∈ JS.split pathname "/" ∧
    seg ≠ ""%string ∧ (getFilenameFromUrl URL_pathname url).1 = seg.
Proof.
  unfold getFilenameFromUrl.
  destruct (URL_pathname url) as [pathname|] eqn:Hurl; [|by left].
  pose proof (split_pieces_absent "?" pathname "/"
                (pathname_has_no_query _ _ Hurl)) as Hq.
  unfold JSArray.pop. cbn beta iota zeta.
  set (segs := JS.split pathname "/") in *.
  assert (∀ v, truthy_string v = true →
             (v = last segs ∨ v = last (removelast segs)) →
             ∃ seg, seg ∈ segs ∧ seg ≠ ""%string ∧
               JS.interpolate (JS.split (JS.interpolate v) "?" !! 0%nat) = seg) as Hpick.
  { intros v Hv Hfrom. apply truthy_string_nonempty in Hv as (s & -> & Hs).
    assert (s ∈ segs) as Hin.
    { destruct Hfrom as [H|H]; symmetry in H; apply last_Some_elem_of in H; [done|].
      clear -H. induction segs as [|x l IH]; [by apply elem_of_nil in H|].
      simpl in H. destruct l; [by apply elem_of_nil in H|].
      apply elem_of_cons in H as [->|H]; [by left|]. right. by apply IH. }
    exists s. split; [done|]. split; [done|]. simpl.
    rewrite Forall_forall in Hq. by rewrite split_head_absent by (by apply Hq). }
  destruct (truthy_string (last segs)) eqn:Hfirst.
  - rewrite Hfirst. right. destruct (Hpick _ Hfirst) as (seg & ? & ? & ?); [by left|].
    by exists pathname, seg.
  - simpl. destruct (truthy_string (last (removelast segs))) eqn:Hsecond; [|by left].
    right. destruct (Hpick _ Hsecond) as (seg & ? & ? & ?); [by right|].
    by exists pathname, seg.
Qed.

End GetFilenameFacts.

(** X16. [getFilenameFromUrl] never returns the empty string nor a
    string holding a slash or a question mark; on a URL that does not parse
    it returns [unnamed_image.jpg] and writes one error line. *)
Theorem getFilenameFromUrl_is_a_plain_name URL_pathname url :
  (∀ url pathname, URL_pathname url = Some pathname → occurs "?" pathname = false) →
  (getFilenameFromUrl URL_pathname url).1 ≠ ""%string ∧
  occurs "/" (getFilenameFromUrl URL_pathname url).1 = false ∧
  occurs "?" (getFilenameFromUrl URL_pathname url).1 = false ∧
  (URL_pathname url = None →
   getFilenameFromUrl URL_pathname url
   = ("unnamed_image.jpg"%string, [("Invalid URL: " +:+ url)%string])).
Proof.
  intros Hquery.
  split; [|split; [|split]].
  - destruct (getFilenameFromUrl_cases _ Hquery url) as [->|(? & seg & _ & _ & ? & ->)]; done.
  - destruct (getFilenameFromUrl_cases _ Hquery url) as [->|(pn & seg & _ & Hin & _ & ->)];
      [done|].
    pose proof (split_pieces_have_no_separator pn "/") as Hall.
    rewrite Forall_forall in Hall. by apply Hall.
  - destruct (getFilenameFromUrl_cases _ Hquery url) as [->|(pn & seg & Hurl & Hin & _ & ->)];
      [done|].
    pose proof (split_pieces_absent "?" pn "/" (Hquery _ _ Hurl)) as Hall.
    rewrite Forall_forall in Hall. by apply Hall.
  - intros Hnone. unfold getFilenameFromUrl. by rewrite Hnone.
Qed.

Lemma example_pathname_has_no_query url pathname :
  example_pathname url = Some pathname → occurs "?" pathname = false.
Proof.
  unfold example_pathname. repeat case_bool_decide; intros [= <-]; reflexivity.
Qed.

Lemma getFilenameFromUrl_is_a_plain_name_witness :
  (getFilenameFromUrl example_pathname "https://example.com/img/photo.jpg?w=640").1
    ≠ ""%string ∧
  occurs "/" (getFilenameFromUrl example_pathname
                "https://example.com/img/photo.jpg?w=640").1 = false ∧
  occurs "?" (getFilenameFromUrl example_pathname
                "https://example.com/img/photo.jpg?w=640").1 = false ∧
  (example_pathname "https://example.com/img/photo.jpg?w=640" = None →
   getFilenameFromUrl example_pathname "https://example.com/img/photo.jpg?w=640"
   = ("unnamed_image.jpg"%string,
      [("Invalid URL: " +:+ "https://example.com/img/photo.jpg?w=640")%string])).
Proof.
  apply (getFilenameFromUrl_is_a_plain_name example_pathname
           "https://example.com/img/photo.jpg?w=640").
  exact example_pathname_has_no_query.
Defined.

(** X17. [getFilenameFromUrl] returns the last segment of the path, also
    when one slash follows it; when two slashes end the path it falls back
    to [unnamed_image.jpg]. *)
Theorem getFilenameFromUrl_tolerates_one_trailing_slash URL_pathname url dir seg :
  seg ≠ ""%string → occurs "/" seg = false → occurs "?" seg = false →
  (URL_pathname url = Some (dir +:+ "/" +:+ seg) →
   getFilenameFromUrl URL_pathname url = (seg, [])) ∧
  (URL_pathname url = Some (dir +:+ "/" +:+ seg +:+ "/") →
   getFilenameFromUrl URL_pathname url = (seg, [])) ∧
  (URL_pathname url = Some (dir +:+ "/" +:+ "/") →
   getFilenameFromUrl URL_pathname url = ("unnamed_image.jpg"%string, [])).
Proof.
  intros Hseg Hslash Hquery.
  assert (JS.interpolate (JS.split seg "?" !! 0%nat) = seg) as Hcut
    by (by rewrite split_head_absent).
  assert (truthy_string (Some seg) = true) as Ht by (by apply truthy_string_Some).
  split; [|split]; intros Hurl; unfold getFilenameFromUrl; rewrite Hurl.
  - change (dir +:+ "/" +:+ seg) with (dir +:+ String "/" seg).
    rewrite split_snoc by done. rewrite pop_snoc.
    rewrite Ht. lazy iota. rewrite Ht. cbn [JS.interpolate]. by rewrite Hcut.
  - replace (dir +:+ "/" +:+ seg +:+ "/") with ((dir +:+ String "/" seg) +:+ String "/" "")
      by (by rewrite append_assoc).
    rewrite split_snoc by done. rewrite pop_snoc.
    rewrite split_snoc by done. rewrite pop_snoc.
    change (truthy_string (Some ""%string)) with false. lazy iota. cbn [fst].
    rewrite Ht. lazy iota. cbn [JS.interpolate]. by rewrite Hcut.
  - replace (dir +:+ "/" +:+ "/") with ((dir +:+ String "/" "") +:+ String "/" "")
      by (by rewrite append_assoc).
    rewrite split_snoc by done. rewrite pop_snoc.
    rewrite split_snoc by done. rewrite pop_snoc. reflexivity.
Qed.

Lemma getFilenameFromUrl_tolerates_one_trailing_slash_witness :
  getFilenameFromUrl example_pathname "https://example.com/albums/2024/"
  = ("2024"%string, []).
Proof.
  apply (proj1 (proj2 (getFilenameFromUrl_tolerates_one_trailing_slash example_pathname
                  "https://example.com/albums/2024/" "/albums" "2024"
                  ltac:(done) eq_refl eq_refl))).
  reflexivity.
Defined.

(** ** Facts about the popup *)

(** Equations between class sets, decided by cases on membership. *)
Ltac by_membership :=
  apply set_eq; intros ?x;
  rewrite ?elem_of_difference, ?elem_of_union, ?elem_of_difference, ?elem_of_union;
  repeat match goal with
         | |- context [?x ∈ ?Y] =>
             lazymatch goal with
             | _ : x ∈ Y |- _ => fail
             | _ : x ∉ Y |- _ => fail
             | _ => destruct (decide (x ∈ Y))
             end
         end;
  tauto.

Lemma add_then_remove_after (X Y Z : gset string) :
  Y ## Z → ((X ∪ Y) ∖ Z ∪ Z) ∖ Y = (X ∪ Z) ∖ Y.
Proof. intros H. pose proof (λ x, H x) as Hx. apply set_eq. intros x.
  specialize (Hx x).
  rewrite !elem_of_difference, !elem_of_union, !elem_of_difference, !elem_of_union.
  destruct (decide (x ∈ Z)); tauto.
Qed.

Lemma add_then_remove_twice (X Y Z : gset string) :
  ((X ∪ Y) ∖ Z ∪ Y) ∖ Z = (X ∪ Y) ∖ Z.
Proof. by_membership. Qed.

Lemma hide_after_show (X Y : gset string) : (X ∖ Y) ∪ Y = X ∪ Y.
Proof. by_membership. Qed.

Lemma show_after_hide (X Y : gset string) : (X ∪ Y) ∖ Y = X ∖ Y.
Proof. by_membership. Qed.

Lemma show_twice (X Y : gset string) : (X ∖ Y) ∖ Y = X ∖ Y.
Proof. by_membership. Qed.

Lemma hide_twice (X Y : gset string) : (X ∪ Y) ∪ Y = X ∪ Y.
Proof. by_membership. Qed.

Lemma active_inactive_disjoint :
  (list_to_set listBtnActiveClasses : gset string) ## list_to_set listBtnInactiveClasses.
Proof. apply (bool_decide_unpack _). by vm_compute. Qed.

Lemma popup_eq s1 s2 :
  listBtn s1 = listBtn s2 → detailsBtn s1 = detailsBtn s2 →
  listView s1 = listView s2 → detailsView s1 = detailsView s2 →
  body s1 = body s2 → listScraperStatus s1 = listScraperStatus s2 →
  listScraperResults s1 = listScraperResults s2 → imageUrlList s1 = imageUrlList s2 →
  s1 = s2.
Proof. destruct s1, s2. simpl. by intros -> -> -> -> -> -> -> ->. Qed.

(** X18. Of two tab clicks in a row the second decides the state, and
    clicking the same tab twice is clicking it once. *)
Theorem last_tab_click_wins s :
  (popup_step ClickDetailsBtn (popup_step ClickListBtn s).1).1
    = (popup_step ClickDetailsBtn s).1 ∧
  (popup_step ClickListBtn (popup_step ClickDetailsBtn s).1).1
    = (popup_step ClickListBtn s).1 ∧
  (popup_step ClickListBtn (popup_step ClickListBtn s).1).1
    = (popup_step ClickListBtn s).1 ∧
  (popup_step ClickDetailsBtn (popup_step ClickDetailsBtn s).1).1
    = (popup_step ClickDetailsBtn s).1.
Proof.
  pose proof active_inactive_disjoint as Hd.
  repeat split; apply popup_eq; cbn [popup_step fst listBtn detailsBtn listView detailsView
    body listScraperStatus listScraperResults imageUrlList]; try done;
    unfold DOMTokenList.add, DOMTokenList.remove,
      detailsBtnActiveClasses, detailsBtnInactiveClasses in *;
    auto using add_then_remove_after, add_then_remove_twice,
      hide_after_show, show_after_hide, show_twice, hide_twice.
Qed.

Lemma tabs_consistent_initial : tabs_consistent popup_initial.
Proof.
  assert (shown (listView popup_initial)) as H1
    by (apply (bool_decide_unpack _); by vm_compute).
  assert (¬ shown (detailsView popup_initial)) as H2
    by (apply (bool_decide_unpack _); by vm_compute).
  assert (highlighted (listBtn popup_initial)) as H3
    by (split; apply (bool_decide_unpack _); by vm_compute).
  assert (¬ highlighted (detailsBtn popup_initial)) as H4
    by (intros [H _]; revert H; apply (bool_decide_unpack _); by vm_compute).
  unfold tabs_consistent. tauto.
Qed.

Lemma tabs_consistent_after_list_click s : tabs_consistent (popup_step ClickListBtn s).1.
Proof.
  unfold tabs_consistent, shown, highlighted. simpl.
  unfold DOMTokenList.add, DOMTokenList.remove.
  assert ("hidden"%string ∉ listView s ∖ list_to_set ["hidden"%string]) as H1 by set_solver.
  assert ("hidden"%string ∈ detailsView s ∪ list_to_set ["hidden"%string]) as H2 by set_solver.
  assert ("bg-pink-500"%string
          ∈ (listBtn s ∪ list_to_set listBtnActiveClasses) ∖ list_to_set listBtnInactiveClasses)
    as H3.
  { apply elem_of_difference. split.
    - apply elem_of_union. right. apply (bool_decide_unpack _). by vm_compute.
    - apply (bool_decide_unpack _). by vm_compute. }
  assert ("bg-blue-200"%string
          ∉ (listBtn s ∪ list_to_set listBtnActiveClasses) ∖ list_to_set listBtnInactiveClasses)
    as H4.
  { rewrite elem_of_difference. intros [_ H]. apply H.
    apply (bool_decide_unpack _). by vm_compute. }
  assert ("bg-pink-500"%string
          ∉ (detailsBtn s ∪ list_to_set detailsBtnInactiveClasses)
              ∖ list_to_set detailsBtnActiveClasses) as H5.
  { rewrite elem_of_difference. intros [_ H]. apply H.
    apply (bool_decide_unpack _). by vm_compute. }
  tauto.
Qed.

Lemma tabs_consistent_after_details_click s :
  tabs_consistent (popup_step ClickDetailsBtn s).1.
Proof.
  unfold tabs_consistent, shown, highlighted. simpl.
  unfold DOMTokenList.add, DOMTokenList.remove.
  assert ("hidden"%string ∉ detailsView s ∖ list_to_set ["hidden"%string]) as H1 by set_solver.
  assert ("hidden"%string ∈ listView s ∪ list_to_set ["hidden"%string]) as H2 by set_solver.
  assert ("bg-pink-500"%string
          ∈ (detailsBtn s ∪ list_to_set detailsBtnActiveClasses)
              ∖ list_to_set detailsBtnInactiveClasses) as H3.
  { apply elem_of_difference. split.
    - apply elem_of_union. right. apply (bool_decide_unpack _). by vm_compute.
    - apply (bool_decide_unpack _). by vm_compute. }
  assert ("bg-blue-200"%string
          ∉ (detailsBtn s ∪ list_to_set detailsBtnActiveClasses)
              ∖ list_to_set detailsBtnInactiveClasses) as H4.
  { rewrite elem_of_difference. intros [_ H]. apply H.
    apply (bool_decide_unpack _). by vm_compute. }
  assert ("bg-pink-500"%string
          ∉ (listBtn s ∪ list_to_set listBtnInactiveClasses)
              ∖ list_to_set listBtnActiveClasses) as H5.
  { rewrite elem_of_difference. intros [_ H]. apply H.
    apply (bool_decide_unpack _). by vm_compute. }
  tauto.
Qed.

Lemma tabs_consistent_step ev s :
  tabs_consistent s → tabs_consistent (popup_step ev s).1.
Proof.
  intros H. destruct ev as [| | | | |[[[urls|]]|]]; try exact H.
  - apply tabs_consistent_after_list_click.
  - apply tabs_consistent_after_details_click.
Qed.

Lemma popup_run_cons ev evs s :
  popup_run (ev :: evs) s
  = ((popup_run evs (popup_step ev s).1).1,
     (popup_step ev s).2 ++ (popup_run evs (popup_step ev s).1).2).
Proof.
  simpl. destruct (popup_step ev s) as [s1 out1]. simpl.
  by destruct (popup_run evs s1) as [s2 out2].
Qed.

Lemma tabs_consistent_run evs : ∀ s,
  tabs_consistent s → tabs_consistent (popup_run evs s).1.
Proof.
  induction evs as [|ev evs IH]; intros s H; [done|].
  rewrite popup_run_cons. apply IH. by apply tabs_consistent_step.
Qed.

(** X19. After any sequence of events of the popup, exactly one of the
    two views is shown, and a view is shown exactly when its button carries
    the active colour and not the inactive one. *)
Theorem exactly_one_view_is_shown evs :
  let s := (popup_run evs popup_initial).1 in
  (shown (listView s) ↔ ¬ shown (detailsView s)) ∧
  (shown (listView s) ↔ highlighted (listBtn s)) ∧
  (shown (detailsView s) ↔ highlighted (detailsBtn s)).
Proof. apply tabs_consistent_run, tabs_consistent_initial. Qed.

(** X20. The dark-mode button flips the [dark] class of the body and
    nothing else; two clicks restore the popup, with one alert each. *)
Theorem dark_mode_toggles_back s :
  popup_run [ClickDarkModeBtn; ClickDarkModeBtn] s
  = (s, [Alert "Dark mode toggle clicked!"; Alert "Dark mode toggle clicked!"]) ∧
  ("dark"%string ∈ body (popup_step ClickDarkModeBtn s).1 ↔ "dark"%string ∉ body s) ∧
  (∀ c, c ≠ "dark"%string → c ∈ body (popup_step ClickDarkModeBtn s).1 ↔ c ∈ body s).
Proof.
  split; [|split].
  - cbn [popup_run popup_step app]. f_equal. apply popup_eq; try done.
    cbn [body]. unfold DOMTokenList.toggle.
    destruct (decide ("dark"%string ∈ body s)) as [Hin|Hout].
    + rewrite decide_False by set_solver. apply set_eq. intros x.
      rewrite elem_of_union, elem_of_difference, elem_of_singleton.
      destruct (decide (x = "dark"%string)) as [->|]; tauto.
    + rewrite decide_True by set_solver. apply set_eq. intros x.
      rewrite elem_of_difference, elem_of_union, elem_of_singleton.
      destruct (decide (x = "dark"%string)) as [->|]; tauto.
  - cbn [popup_step fst body]. unfold DOMTokenList.toggle.
    destruct (decide ("dark"%string ∈ body s)); set_solver.
  - intros c Hc. cbn [popup_step fst body]. unfold DOMTokenList.toggle.
    destruct (decide ("dark"%string ∈ body s)); set_solver.
Qed.

Lemma popup_run_snoc evs ev : ∀ s,
  popup_run (evs ++ [ev]) s
  = ((popup_step ev (popup_run evs s).1).1,
     (popup_run evs s).2 ++ (popup_step ev (popup_run evs s).1).2).
Proof.
  induction evs as [|e evs IH]; intros s.
  - simpl. destruct (popup_step ev s) as [s1 out1]. simpl. by rewrite app_nil_r.
  - rewrite <- app_comm_cons, !popup_run_cons, IH. simpl. by rewrite app_assoc.
Qed.

Lemma step_keeps_results ev s :
  images_of ev = None → is_response ev = false →
  imageUrlList (popup_step ev s).1 = imageUrlList s ∧
  listScraperResults (popup_step ev s).1 = listScraperResults s.
Proof. by destruct ev as [| | | | |[[[urls|]]|]]. Qed.

Lemma last_images_snoc evs ev :
  last_images (evs ++ [ev])
  = match images_of ev with Some urls => Some urls | None => last_images evs end.
Proof.
  unfold last_images. rewrite omap_app. simpl.
  destruct (images_of ev); simpl; [by rewrite last_snoc | by rewrite app_nil_r].
Qed.

Lemma last_response_snoc evs ev :
  last_response (evs ++ [ev]) = if is_response ev then Some ev else last_response evs.
Proof.
  unfold last_response. rewrite filter_app.
  destruct (is_response ev) eqn:E.
  - rewrite (filter_cons_True (λ ev, is_response ev = true) ev [] E), filter_nil.
    by rewrite last_snoc.
  - rewrite (filter_cons_False (λ ev, is_response ev = true) ev [])
      by (by rewrite E).
    by rewrite filter_nil, app_nil_r.
Qed.

(** X21. The URL list shows the images of the last response that
    carried any, also after a later response without images has hidden the
    panel; the panel is shown exactly when the last response carried
    images, and no click changes either. *)
Theorem results_panel_follows_the_last_response evs s :
  let s' := (popup_run evs s).1 in
  imageUrlList s' = default (imageUrlList s) (last_images evs) ∧
  match last_response evs with
  | Some ev => shown (listScraperResults s') ↔ is_Some (images_of ev)
  | None => listScraperResults s' = listScraperResults s
  end.
Proof.
  induction evs as [|ev evs [IH1 IH2]] using rev_ind; [done|].
  cbn zeta. rewrite popup_run_snoc. cbn [fst].
  rewrite last_images_snoc, last_response_snoc. cbn zeta in IH1, IH2.
  set (s1 := (popup_run evs s).1) in *.
  destruct ev as [| | | | |[[[urls|]]|]]; simpl;
    try (split; [exact IH1 | exact IH2]).
  - split; [done|]. unfold shown, DOMTokenList.remove.
    split; [by eauto | intros _; set_solver].
  - split; [done|]. unfold shown, DOMTokenList.add.
    split; [set_solver | intros [? ?]; done].
  - split; [done|]. unfold shown, DOMTokenList.add.
    split; [set_solver | intros [? ?]; done].
Qed.

Lemma popup_sends_only_startScrape evs : ∀ s action type,
  SendToActiveTab action type ∈ (popup_run evs s).2 →
  action = "startScrape"%string ∧ type = "list"%string.
Proof.
  induction evs as [|ev evs IH]; intros s action type H.
  - by apply elem_of_nil in H.
  - rewrite popup_run_cons in H. cbn [snd] in H. apply elem_of_app in H as [H|H].
    + destruct ev as [| | | | |[[[urls|]]|]]; simpl in H;
        try (by apply elem_of_nil in H);
        apply list_elem_of_singleton in H; by inversion H.
    + by eapply IH.
Qed.

(** X22. Every message the popup sends to the active tab carries an
    action that the content script's listener does not handle: the page
    agent does nothing on it and sends nothing to the coordinator. *)
Theorem page_agent_ignores_the_popup after_click evs s action type fuel p :
  SendToActiveTab action type ∈ (popup_run evs s).2 →
  contentScript_onMessage after_click fuel action p = Some (p, []).
Proof.
  intros H. apply popup_sends_only_startScrape in H as [-> _]. done.
Qed.

Lemma page_agent_ignores_the_popup_witness :
  SendToActiveTab "startScrape" "list"
    ∈ (popup_run [ClickDetailsBtn; ClickStartListScrapeBtn] popup_initial).2 ∧
  contentScript_onMessage (λ p _, p) 3 "startScrape" (simulated_page 0 three_images [500; 900; 900])
  = Some (simulated_page 0 three_images [500; 900; 900], []).
Proof.
  assert (SendToActiveTab "startScrape" "list"
            ∈ (popup_run [ClickDetailsBtn; ClickStartListScrapeBtn] popup_initial).2) as H.
  { simpl. apply list_elem_of_singleton. reflexivity. }
  split; [exact H|].
  exact (page_agent_ignores_the_popup _ _ _ _ _ _ _ H).
Defined.
